(** * Basic-Auth credentials collections (basic_auth/collection.py)

    A shallow embedding of the two credential stores of the service, the
    in-memory [MemoryCredentialsCollection] and the database-backed
    [DataBaseCredentialsCollection], together with the token helpers
    [_prep_token] and [_get_auth], and the properties of these operations.

    Python strings are byte strings ([string]); a dictionary is a [gmap];
    a coroutine that reads and writes [self.items] (or the database behind a
    model) and may raise is a function from the store to an outcome and the
    store it leaves behind. *)

From Stdlib Require Import ZArith List String Ascii Bool Lia.
From stdpp Require Import base option gmap strings list fin_maps.

Local Open Scope string_scope.

(** ** Python values and strings *)

(** The values a details dictionary holds: [None] or a string. *)
Inductive value : Type :=
  | VNone
  | VStr (s : string).

#[global] Instance value_eq_dec : EqDecision value.
Proof. solve_decision. Defined.

Definition value_to_option (v : value) : option string :=
  match v with VNone => None | VStr s => Some s end.

Definition value_of_option (o : option string) : value :=
  match o with None => VNone | Some s => VStr s end.

#[global] Instance value_countable : Countable value.
Proof.
  refine (inj_countable' value_to_option value_of_option _).
  intros []; reflexivity.
Defined.

(** A details dictionary, as the API hands it to a collection. *)
Abbreviation Details := (gmap string value).

(** [d.get(key)]: [None] both when the key is absent and when it maps to
    [None]. *)
Definition dict_get (d : Details) (key : string) : option string :=
  match d !! key with
  | Some (VStr s) => Some s
  | _ => None
  end.

Module PyStr.

Definition colon : ascii := ":"%char.

(** [c in s] for a one-character [c]. *)
Fixpoint contains (c : ascii) (s : string) : bool :=
  match s with
  | EmptyString => false
  | String a s' => Ascii.eqb a c || contains c s'
  end.

(** [s.split(sep)] for a one-character separator: never the empty list,
    and [n] separators give [n + 1] parts. *)
Fixpoint split (sep : ascii) (s : string) : list string :=
  match s with
  | EmptyString => [EmptyString]
  | String a s' =>
      if Ascii.eqb a sep then EmptyString :: split sep s'
      else match split sep s' with
           | [] => [String a EmptyString]
           | part :: parts => String a part :: parts
           end
  end.

(** [sep.join(parts)]. *)
Fixpoint join (sep : string) (parts : list string) : string :=
  match parts with
  | [] => EmptyString
  | part :: rest =>
      match rest with
      | [] => part
      | _ :: _ => part +:+ sep +:+ join sep rest
      end
  end.

(** [s.split(sep, 1)]: cut at the first separator only. *)
Fixpoint split1 (sep : ascii) (s : string) : list string :=
  match s with
  | EmptyString => [EmptyString]
  | String a s' =>
      if Ascii.eqb a sep then [EmptyString; s']
      else match split1 sep s' with
           | part :: parts => String a part :: parts
           | [] => [String a EmptyString]
           end
  end.

(** ['' in parts]. *)
Definition has_empty (parts : list string) : bool :=
  existsb (String.eqb EmptyString) parts.

End PyStr.

(** ** Exceptions and the coroutine monad *)

Inductive error : Type :=
  | ResourceAlreadyExists (res_id : value)
  | ResourceNotFound (res_id : value)
  | InvalidResourceDetails (message : string)
  | MalformedToken
  | KeyError (key : string)
  | AttributeError.

#[global] Instance error_eq_dec : EqDecision error.
Proof. solve_decision. Defined.

Inductive result (A : Type) : Type :=
  | Ok (a : A)
  | Raise (e : error).
Arguments Ok {A} a.
Arguments Raise {A} e.

(** A coroutine over a store [S]: an exception does not undo what was
    written before it was raised, so the store is returned in both cases. *)
Definition Py (S A : Type) : Type := S -> result A * S.

Definition py_ret {S A} (a : A) : Py S A := fun st => (Ok a, st).

Definition py_bind {S A B} (m : Py S A) (k : A -> Py S B) : Py S B :=
  fun st =>
    match m st with
    | (Ok a, st') => k a st'
    | (Raise e, st') => (Raise e, st')
    end.

Definition py_raise {S A} (e : error) : Py S A := fun st => (Raise e, st).

Definition py_lift {S A} (r : result A) : Py S A := fun st => (r, st).

Definition py_read {S} : Py S S := fun st => (Ok st, st).

Definition py_write {S} (st : S) : Py S unit := fun _ => (Ok tt, st).

Notation "'do' x <- m ; k" := (py_bind m (fun x => k))
  (at level 10, x name, m at level 100, k at level 200,
   format "'[v' 'do'  x  <-  m ; '/' k ']'").
Notation "'perform' m ; k" := (py_bind m (fun _ => k))
  (at level 10, m at level 100, k at level 200,
   format "'[v' 'perform'  m ; '/' k ']'").

(** ** Credentials (basic_auth/credential.py) *)

(** The hash function of the service, [hash_token256]: the collection only
    calls it, so the development is parametric in it. *)
Class HashFunction := hash_token256 : string -> string.

Record BasicAuthCredentials : Type := mkAuth {
  username : string;
  password : string
}.

#[global] Instance auth_eq_dec : EqDecision BasicAuthCredentials.
Proof. solve_decision. Defined.

(** Modelled from the spec: [str(auth)] of [BasicAuthCredentials], a class
    of basic_auth/credential.py whose code is missing: the token
    [username:password]. *)
Definition auth_str (auth : BasicAuthCredentials) : string :=
  username auth +:+ ":" +:+ password auth.

(** Modelled from the spec: [BasicAuthCredentials.from_token], missing with
    basic_auth/credential.py: it splits on the first [:] and fails unless
    that gives exactly two non-empty parts. *)
Definition from_token (token : string) : result BasicAuthCredentials :=
  let parts := PyStr.split1 PyStr.colon token in
  if (length parts =? 2)%nat && negb (PyStr.has_empty parts) then
    Ok (mkAuth (nth 0 parts EmptyString) (nth 1 parts EmptyString))
  else Raise MalformedToken.

(** Modelled from the spec: what [BasicAuthCredentials.generate] promises
    of a pair it returns (the pair itself is an argument of every operation
    that may call [generate]): both components are non-empty and free of
    the separator. *)
Definition generated_ok (fresh : BasicAuthCredentials) : Prop :=
  username fresh <> EmptyString /\ password fresh <> EmptyString /\
  PyStr.contains PyStr.colon (username fresh) = false /\
  PyStr.contains PyStr.colon (password fresh) = false.

(** Credentials that survive a round trip through their token. *)
Definition auth_ok (auth : BasicAuthCredentials) : Prop :=
  username auth <> EmptyString /\ password auth <> EmptyString /\
  PyStr.contains PyStr.colon (username auth) = false.

Section Tokens.
Context {hash : HashFunction}.

(** [_prep_token]: the password of a [username:password] token is replaced
    by its hash. *)
Definition _prep_token (token : option string) : option string :=
  match token with
  | None => None
  | Some token =>
      let split := PyStr.split PyStr.colon token in
      if (length split =? 2)%nat && negb (PyStr.has_empty split) then
        let split := <[1%nat := hash_token256 (nth 1 split EmptyString)]> split in
        Some (PyStr.join ":" split)
      else Some token
  end.

(** [_get_auth]: credentials from a token, generated ([fresh]) when the
    token is [None] or empty. *)
Definition _get_auth (fresh : BasicAuthCredentials) (token : option string)
  : result BasicAuthCredentials :=
  match token with
  | Some (String _ _ as token) => from_token token
  | _ => Ok fresh
  end.

End Tokens.

(** ** The generic in-memory collection (basic_auth/api/sample.py) *)

(** Modelled from the spec: [SampleResourceCollection], the keyed store the
    in-memory collection inherits from, whose code (basic_auth/api/sample.py)
    is missing: [create] inserts under the id field and fails with
    [ResourceAlreadyExists] when the key is present; [get], [update] and
    [delete] fail with [ResourceNotFound] when it is absent; [update]
    overwrites the record. *)
Module SampleResourceCollection.

Definition create (id_field : string) (details : Details)
  : Py (gmap value Details) Details :=
  match details !! id_field with
  | None => py_raise (KeyError id_field)
  | Some res_id =>
      do items <- py_read;
      match items !! res_id with
      | Some _ => py_raise (ResourceAlreadyExists res_id)
      | None =>
          perform py_write (<[res_id := details]> items);
          py_ret details
      end
  end.

Definition get_all : Py (gmap value Details) (list Details) :=
  do items <- py_read;
  py_ret (snd <$> map_to_list items).

Definition get (res_id : value) : Py (gmap value Details) Details :=
  do items <- py_read;
  match items !! res_id with
  | None => py_raise (ResourceNotFound res_id)
  | Some details => py_ret details
  end.

Definition update (res_id : value) (details : Details)
  : Py (gmap value Details) Details :=
  do items <- py_read;
  match items !! res_id with
  | None => py_raise (ResourceNotFound res_id)
  | Some _ =>
      perform py_write (<[res_id := details]> items);
      py_ret details
  end.

Definition delete (res_id : value) : Py (gmap value Details) unit :=
  do items <- py_read;
  match items !! res_id with
  | None => py_raise (ResourceNotFound res_id)
  | Some _ => py_write (base.delete res_id items)
  end.

End SampleResourceCollection.

(** ** The in-memory collection *)

(** The methods below are the coroutines as written; the [locking]
    decorator that wraps some of them is the subject of [Scheduler]. *)
Module MemoryCredentialsCollection.
Section Methods.
Context {hash : HashFunction}.

Definition VALID_API_CREDENTIALS : string * string := ("user", "pass").

(** [details['token']] of a stored record, read by [from_token]. *)
Definition stored_auth (details : Details) : result BasicAuthCredentials :=
  match details !! "token" with
  | None => Raise (KeyError "token")
  | Some VNone => Raise AttributeError
  | Some (VStr token) => from_token token
  end.

(** The loop of [_check_duplicated_username] over [self.items.items()]. *)
Fixpoint check_entries (user : value) (name : string)
    (entries : list (value * Details)) : result unit :=
  match entries with
  | [] => Ok tt
  | (other_user, details) :: rest =>
      match stored_auth details with
      | Raise e => Raise e
      | Ok auth =>
          if bool_decide (username auth = name) && negb (bool_decide (user = other_user))
          then Raise (InvalidResourceDetails "Token username already in use")
          else check_entries user name rest
      end
  end.

Definition _check_duplicated_username (user : value) (name : string)
  : Py (gmap value Details) unit :=
  do items <- py_read;
  py_lift (check_entries user name (map_to_list items)).

(** [create] up to its [await]: the token is prepared, the credentials are
    read or generated, the username is checked, and [details['token']] is
    set. *)
Definition create_details (fresh : BasicAuthCredentials) (details : Details)
  : Py (gmap value Details) Details :=
  let token := _prep_token (dict_get details "token") in
  do auth <- py_lift (_get_auth fresh token);
  do user <- match details !! "user" with
             | Some user => py_ret user
             | None => py_raise (KeyError "user")
             end;
  perform _check_duplicated_username user (username auth);
  py_ret (<["token" := VStr (auth_str auth)]> details).

Definition create (fresh : BasicAuthCredentials) (details : Details)
  : Py (gmap value Details) Details :=
  do details <- create_details fresh details;
  SampleResourceCollection.create "user" details.

Definition get_all : Py (gmap value Details) (list Details) :=
  SampleResourceCollection.get_all.

(** [update] up to its [await]. *)
Definition update_details (fresh : BasicAuthCredentials) (user : value)
    (details : Details) : Py (gmap value Details) Details :=
  let token := _prep_token (dict_get details "token") in
  do auth <- py_lift (_get_auth fresh token);
  perform _check_duplicated_username user (username auth);
  py_ret (<["token" := VStr (auth_str auth)]> details).

Definition update (fresh : BasicAuthCredentials) (user : value)
    (details : Details) : Py (gmap value Details) Details :=
  do details <- update_details fresh user details;
  SampleResourceCollection.update user details.

Definition delete (res_id : value) : Py (gmap value Details) unit :=
  SampleResourceCollection.delete res_id.

Definition get (res_id : value) : Py (gmap value Details) Details :=
  SampleResourceCollection.get res_id.

(** [[details['token'] for details in self.items.values()]]. *)
Fixpoint tokens_of (records : list Details) : result (list value) :=
  match records with
  | [] => Ok []
  | details :: rest =>
      match details !! "token" with
      | None => Raise (KeyError "token")
      | Some token =>
          match tokens_of rest with
          | Ok tokens => Ok (token :: tokens)
          | Raise e => Raise e
          end
      end
  end.

Definition credentials_match (name pass : string)
  : Py (gmap value Details) bool :=
  do items <- py_read;
  do credentials <- py_lift (tokens_of (snd <$> map_to_list items));
  py_ret (bool_decide (VStr (name +:+ ":" +:+ hash_token256 pass) ∈ credentials)).

Definition api_credentials_match (name pass : string)
  : Py (gmap value Details) bool :=
  py_ret (bool_decide ((name, pass) = VALID_API_CREDENTIALS)).

End Methods.
End MemoryCredentialsCollection.

(** ** The database-backed collection *)

(** A record the model returns: the user it belongs to and its
    credentials. *)
Record Credentials : Type := mkCredentials {
  cred_user : value;
  cred_auth : BasicAuthCredentials
}.

(** The persistence model the collection talks to: the methods of
    basic_auth/db/model.py that the operations below call, over a database
    [DB]. [get_credentials] is called with either [user=] or [username=]. *)
Class Model (DB : Type) : Type := {
  is_known_user : value -> DB -> bool;
  add_credentials : value -> string -> string -> DB -> DB;
  get_credentials_user : value -> DB -> option Credentials;
  get_credentials_username : string -> DB -> option Credentials;
  get_api_credentials : string -> DB -> option Credentials;
  update_credentials : value -> string -> string -> DB -> DB;
  remove_credentials : value -> DB -> bool * DB;
  password_match : Credentials -> string -> bool
}.

(** Modelled from the spec: the [transact] decorator, whose code
    (basic_auth/db.py) is missing: the operation runs in a transaction that
    is committed when it returns and rolled back when it raises. *)
Definition transact {DB A} (operation : Py DB A) : Py DB A :=
  fun db =>
    match operation db with
    | (Ok a, db') => (Ok a, db')
    | (Raise e, _) => (Raise e, db)
    end.

Module DataBaseCredentialsCollection.
Section Methods.
Context {hash : HashFunction} {DB : Type} {model : Model DB}.

Definition _check_duplicated_username (user : value) (name : string)
  : Py DB unit :=
  do db <- py_read;
  match get_credentials_username name db with
  | None => py_ret tt
  | Some credentials =>
      if bool_decide (cred_user credentials <> user)
      then py_raise (InvalidResourceDetails "Token username already in use")
      else py_ret tt
  end.

Definition create (fresh : BasicAuthCredentials) (details : Details)
  : Py DB (value * Details) :=
  transact (
    do user <- match details !! "user" with
               | Some user => py_ret user
               | None => py_raise (KeyError "user")
               end;
    do db <- py_read;
    if is_known_user user db then py_raise (ResourceAlreadyExists user)
    else
      do auth <- py_lift (_get_auth fresh (dict_get details "token"));
      perform _check_duplicated_username user (username auth);
      do db <- py_read;
      perform py_write (add_credentials user (username auth) (password auth) db);
      py_ret (user, {[ "user" := user; "token" := VStr (auth_str auth) ]})).

Definition delete (user : value) : Py DB unit :=
  transact (
    do db <- py_read;
    let (removed, db') := remove_credentials user db in
    perform py_write db';
    if removed then py_ret tt else py_raise (ResourceNotFound user)).

Definition get (user : value) : Py DB Details :=
  transact (
    do db <- py_read;
    match get_credentials_user user db with
    | None => py_raise (ResourceNotFound user)
    | Some credentials =>
        py_ret {[ "user" := user;
                  "token" := VStr (auth_str (cred_auth credentials)) ]}
    end).

Definition update (fresh : BasicAuthCredentials) (user : value)
    (details : Details) : Py DB Details :=
  transact (
    do db <- py_read;
    if negb (is_known_user user db) then py_raise (ResourceNotFound user)
    else
      do auth <- py_lift (_get_auth fresh (dict_get details "token"));
      perform _check_duplicated_username user (username auth);
      do db <- py_read;
      perform py_write (update_credentials user (username auth) (password auth) db);
      py_ret {[ "user" := user; "token" := VStr (auth_str auth) ]}).

Definition credentials_match (name pass : string) : Py DB bool :=
  transact (
    do db <- py_read;
    match get_credentials_username name db with
    | None => py_ret false
    | Some credentials => py_ret (password_match credentials pass)
    end).

Definition api_credentials_match (name pass : string) : Py DB bool :=
  transact (
    do db <- py_read;
    match get_api_credentials name db with
    | None => py_ret false
    | Some credentials => py_ret (password_match credentials pass)
    end).

End Methods.
End DataBaseCredentialsCollection.

(** Modelled from the spec: a persistence model, whose code
    (basic_auth/db/model.py) is missing. A credential is stored under its
    user as a username and a password hash, never the password itself; a
    record matches a password when the hash of the password is the stored
    hash. *)
Module TableModel.
Section Table.
Context {hash : HashFunction}.

Record Table : Type := mkTable {
  credentials : gmap value (string * string);
  api_credentials : gmap string string
}.

Definition record_of (row : value * (string * string)) : Credentials :=
  mkCredentials row.1 (mkAuth row.2.1 row.2.2).

Definition by_username (name : string) (table : Table) : option Credentials :=
  record_of <$>
    List.find (fun row => bool_decide (row.2.1 = name))
              (map_to_list (credentials table)).

Definition store (user : value) (name pass : string) (table : Table) : Table :=
  mkTable (<[user := (name, hash_token256 pass)]> (credentials table))
          (api_credentials table).

#[global] Instance table_model : Model Table := {|
  is_known_user user table := bool_decide (is_Some (credentials table !! user));
  add_credentials := store;
  get_credentials_user user table :=
    (fun row => record_of (user, row)) <$> credentials table !! user;
  get_credentials_username := by_username;
  get_api_credentials name table :=
    (fun hashed => mkCredentials (VStr name) (mkAuth name hashed))
      <$> api_credentials table !! name;
  update_credentials user name pass table :=
    if bool_decide (is_Some (credentials table !! user))
    then store user name pass table else table;
  remove_credentials user table :=
    (bool_decide (is_Some (credentials table !! user)),
     mkTable (base.delete user (credentials table)) (api_credentials table));
  password_match record pass :=
    bool_decide (hash_token256 pass = password (cred_auth record))
|}.

Definition empty : Table := mkTable ∅ ∅.

End Table.
End TableModel.

(** ** A hash function to evaluate the collections at *)

(** Modelled from the spec: the Hash Function, [hash_token256] of
    basic_auth/credential.py, whose code is missing, is a deterministic
    one-way digest whose output can stand as the second component of a
    token. The collections are parametric in it; concrete runs below use the
    SHA-256 digest in lower-case hexadecimal, as in FIPS 180-4. *)
Module Sha256.
Local Open Scope Z_scope.

Definition mask : Z := 0xffffffff.

Definition add32 (x y : Z) : Z := Z.land (x + y) mask.

Definition rotr (n x : Z) : Z :=
  Z.lor (Z.shiftr x n) (Z.land (Z.shiftl x (32 - n)) mask).

Definition ch (x y z : Z) : Z :=
  Z.lxor (Z.land x y) (Z.land (Z.lxor x mask) z).

Definition maj (x y z : Z) : Z :=
  Z.lxor (Z.lxor (Z.land x y) (Z.land x z)) (Z.land y z).

Definition big_sigma0 (x : Z) : Z :=
  Z.lxor (Z.lxor (rotr 2 x) (rotr 13 x)) (rotr 22 x).

Definition big_sigma1 (x : Z) : Z :=
  Z.lxor (Z.lxor (rotr 6 x) (rotr 11 x)) (rotr 25 x).

Definition small_sigma0 (x : Z) : Z :=
  Z.lxor (Z.lxor (rotr 7 x) (rotr 18 x)) (Z.shiftr x 3).

Definition small_sigma1 (x : Z) : Z :=
  Z.lxor (Z.lxor (rotr 17 x) (rotr 19 x)) (Z.shiftr x 10).

Definition round_constants : list Z :=
  0x428a2f98 :: 0x71374491 :: 0xb5c0fbcf :: 0xe9b5dba5 ::
  0x3956c25b :: 0x59f111f1 :: 0x923f82a4 :: 0xab1c5ed5 ::
  0xd807aa98 :: 0x12835b01 :: 0x243185be :: 0x550c7dc3 ::
  0x72be5d74 :: 0x80deb1fe :: 0x9bdc06a7 :: 0xc19bf174 ::
  0xe49b69c1 :: 0xefbe4786 :: 0x0fc19dc6 :: 0x240ca1cc ::
  0x2de92c6f :: 0x4a7484aa :: 0x5cb0a9dc :: 0x76f988da ::
  0x983e5152 :: 0xa831c66d :: 0xb00327c8 :: 0xbf597fc7 ::
  0xc6e00bf3 :: 0xd5a79147 :: 0x06ca6351 :: 0x14292967 ::
  0x27b70a85 :: 0x2e1b2138 :: 0x4d2c6dfc :: 0x53380d13 ::
  0x650a7354 :: 0x766a0abb :: 0x81c2c92e :: 0x92722c85 ::
  0xa2bfe8a1 :: 0xa81a664b :: 0xc24b8b70 :: 0xc76c51a3 ::
  0xd192e819 :: 0xd6990624 :: 0xf40e3585 :: 0x106aa070 ::
  0x19a4c116 :: 0x1e376c08 :: 0x2748774c :: 0x34b0bcb5 ::
  0x391c0cb3 :: 0x4ed8aa4a :: 0x5b9cca4f :: 0x682e6ff3 ::
  0x748f82ee :: 0x78a5636f :: 0x84c87814 :: 0x8cc70208 ::
  0x90befffa :: 0xa4506ceb :: 0xbef9a3f7 :: 0xc67178f2 :: nil.

Definition initial_state : list Z :=
  0x6a09e667 :: 0xbb67ae85 :: 0x3c6ef372 :: 0xa54ff53a ::
  0x510e527f :: 0x9b05688c :: 0x1f83d9ab :: 0x5be0cd19 :: nil.

Definition bytes_of (s : string) : list Z :=
  List.map (fun a => Z.of_nat (nat_of_ascii a)) (list_ascii_of_string s).

(** The message, a one bit, zero bits up to 56 modulo 64 bytes, and the
    length of the message in bits as eight bytes. *)
Definition pad (message : list Z) : list Z :=
  let len := Z.of_nat (length message) in
  let zeros := Z.to_nat ((55 - len) mod 64) in
  message ++ 128 :: repeat 0 zeros
          ++ List.map (fun i => Z.land (Z.shiftr (8 * len) (8 * (7 - Z.of_nat i))) 255)
                      (seq 0 8).

Fixpoint words_of (fuel : nat) (bytes : list Z) : list Z :=
  match fuel, bytes with
  | S fuel, b0 :: b1 :: b2 :: b3 :: rest =>
      (((b0 * 256 + b1) * 256 + b2) * 256 + b3) :: words_of fuel rest
  | _, _ => nil
  end.

Definition w_at (schedule : list Z) (t : nat) : Z := nth t schedule 0.

Definition extend (schedule : list Z) (t : nat) : list Z :=
  schedule ++
  [add32 (add32 (small_sigma1 (w_at schedule (t - 2))) (w_at schedule (t - 7)))
         (add32 (small_sigma0 (w_at schedule (t - 15))) (w_at schedule (t - 16)))].

Definition schedule_of (block : list Z) : list Z :=
  fold_left extend (seq 16 48) block.

Definition round (state : list Z) (kw : Z * Z) : list Z :=
  match state with
  | [a; b; c; d; e; f; g; h] =>
      let t1 := add32 (add32 (add32 h (big_sigma1 e)) (add32 (ch e f g) kw.1)) kw.2 in
      let t2 := add32 (big_sigma0 a) (maj a b c) in
      [add32 t1 t2; a; b; c; add32 d t1; e; f; g]
  | _ => state
  end.

Definition compress (state block : list Z) : list Z :=
  let final := fold_left round (combine round_constants (schedule_of block)) state in
  List.map (fun p => add32 p.1 p.2) (combine state final).

Fixpoint blocks_of (fuel : nat) (words : list Z) : list (list Z) :=
  match fuel, words with
  | S fuel, _ :: _ => firstn 16 words :: blocks_of fuel (skipn 16 words)
  | _, _ => nil
  end.

Definition digest (s : string) : list Z :=
  let bytes := pad (bytes_of s) in
  let words := words_of (length bytes) bytes in
  fold_left compress (blocks_of (length words) words) initial_state.

Definition hex_digits : list ascii :=
  list_ascii_of_string "0123456789abcdef".

Definition hex_digit (d : Z) : ascii :=
  nth (Z.to_nat (Z.land d 15)) hex_digits "0"%char.

Definition hex8 (word : Z) (tail : string) : string :=
  String (hex_digit (Z.shiftr word 28)) (String (hex_digit (Z.shiftr word 24))
  (String (hex_digit (Z.shiftr word 20)) (String (hex_digit (Z.shiftr word 16))
  (String (hex_digit (Z.shiftr word 12)) (String (hex_digit (Z.shiftr word 8))
  (String (hex_digit (Z.shiftr word 4)) (String (hex_digit word) tail))))))).

Definition hexdigest (s : string) : string :=
  fold_right hex8 EmptyString (digest s).

End Sha256.

Definition sha256 : HashFunction := Sha256.hexdigest.

(** ** States of the collections and sequences of operations *)

(** A request to change a collection; [fresh] is the pair [generate] would
    return if the operation called it. *)
Inductive operation : Type :=
  | Create (fresh : BasicAuthCredentials) (details : Details)
  | Update (fresh : BasicAuthCredentials) (user : value) (details : Details)
  | Delete (user : value).

Definition operation_ok (op : operation) : Prop :=
  match op with
  | Create fresh _ | Update fresh _ _ => generated_ok fresh
  | Delete _ => True
  end.

(** The request carries no token: the key is absent, or it maps to [None]
    or to the empty string. *)
Definition token_missing (details : Details) : Prop :=
  details !! "token" = None \/ details !! "token" = Some VNone
  \/ details !! "token" = Some (VStr EmptyString).

(** The error of both [_check_duplicated_username]. *)
Abbreviation taken := (InvalidResourceDetails "Token username already in use").

(** [self._check_duplicated_username(model, user, username)] passes: the
    model has no record of the username, or it is the record of [user]. *)
Definition username_free {DB} {model : Model DB} (user : value) (name : string)
    (db : DB) : bool :=
  match get_credentials_username name db with
  | None => true
  | Some credentials => bool_decide (cred_user credentials = user)
  end.

Module MemoryState.
Section State.
Context {hash : HashFunction}.
Import MemoryCredentialsCollection.

(** The live record of [user] carries the credentials [auth]. *)
Definition record_auth (items : gmap value Details) (user : value)
    (auth : BasicAuthCredentials) : Prop :=
  exists details, items !! user = Some details /\ stored_auth details = Ok auth.

(** Every stored record holds a token that reads back as credentials. *)
Definition well_formed (items : gmap value Details) : Prop :=
  forall user details, items !! user = Some details ->
    exists auth, stored_auth details = Ok auth.

(** No two live records with distinct user keys share a username. *)
Definition unique_usernames (items : gmap value Details) : Prop :=
  forall user1 user2 auth1 auth2,
    record_auth items user1 auth1 -> record_auth items user2 auth2 ->
    username auth1 = username auth2 -> user1 = user2.

Definition consistent (items : gmap value Details) : Prop :=
  well_formed items /\ unique_usernames items.

Definition step (items : gmap value Details) (op : operation)
  : gmap value Details :=
  match op with
  | Create fresh details => (create fresh details items).2
  | Update fresh user details => (update fresh user details items).2
  | Delete user => (delete user items).2
  end.

Definition run (ops : list operation) (items : gmap value Details)
  : gmap value Details :=
  fold_left step ops items.

End State.
End MemoryState.

Module TableState.
Section State.
Context {hash : HashFunction}.
Import TableModel DataBaseCredentialsCollection.

(** No two rows with distinct user keys share a username. *)
Definition unique_usernames (table : Table) : Prop :=
  forall user1 user2 row1 row2,
    credentials table !! user1 = Some row1 ->
    credentials table !! user2 = Some row2 ->
    row1.1 = row2.1 -> user1 = user2.

Definition step (table : Table) (op : operation) : Table :=
  match op with
  | Create fresh details => (create fresh details table).2
  | Update fresh user details => (update fresh user details table).2
  | Delete user => (delete user table).2
  end.

Definition run (ops : list operation) (table : Table) : Table :=
  fold_left step ops table.

End State.
End TableState.

(** ** Concurrent calls of the in-memory collection *)

(** The in-memory collection serves its calls as coroutines on one event
    loop: a coroutine runs alone up to its next [await], where another may
    run. *)
Module Scheduler.
Section Tasks.
Context {hash : HashFunction}.
Import MemoryCredentialsCollection.

(** A call of a public method. *)
Inductive call : Type :=
  | CallCreate (fresh : BasicAuthCredentials) (details : Details)
  | CallGetAll
  | CallUpdate (fresh : BasicAuthCredentials) (user : value) (details : Details)
  | CallDelete (res_id : value)
  | CallGet (res_id : value)
  | CallCredentialsMatch (name pass : string)
  | CallApiCredentialsMatch (name pass : string).

Inductive returned : Type :=
  | RDetails (details : Details)
  | RAll (records : list Details)
  | RNone
  | RBool (b : bool).

(** What is left of a coroutine: the value it returns, or the code up to
    its next [await] and what follows it. *)
Inductive coroutine : Type :=
  | Return (r : returned)
  | Segment {A : Type} (code : Py (gmap value Details) A) (rest : A -> coroutine).

(** The method bodies, cut where they [await] the inherited method. *)
Definition body (c : call) : coroutine :=
  match c with
  | CallCreate fresh details =>
      Segment (create_details fresh details) (fun details =>
      Segment (SampleResourceCollection.create "user" details) (fun created =>
      Return (RDetails created)))
  | CallGetAll =>
      Segment SampleResourceCollection.get_all (fun records => Return (RAll records))
  | CallUpdate fresh user details =>
      Segment (update_details fresh user details) (fun details =>
      Segment (SampleResourceCollection.update user details) (fun updated =>
      Return (RDetails updated)))
  | CallDelete res_id =>
      Segment (SampleResourceCollection.delete res_id) (fun _ => Return RNone)
  | CallGet res_id =>
      Segment (SampleResourceCollection.get res_id) (fun details =>
      Return (RDetails details))
  | CallCredentialsMatch name pass =>
      Segment (credentials_match name pass) (fun matched => Return (RBool matched))
  | CallApiCredentialsMatch name pass =>
      Segment (api_credentials_match name pass) (fun matched => Return (RBool matched))
  end.

(** The methods that carry the [@locking] decorator. *)
Definition locking (c : call) : bool :=
  match c with
  | CallGetAll | CallApiCredentialsMatch _ _ => false
  | _ => true
  end.

(** A call in progress: waiting for the lock, running (with or without
    the lock), or done. *)
Inductive task : Type :=
  | Waiting (rest : coroutine)
  | Running (holds : bool) (rest : coroutine)
  | Done (outcome : result returned).

Record collection : Type := mkCollection {
  items : gmap value Details;
  locked : bool;
  tasks : list task
}.

(** Modelled from the spec: the [locking] decorator, whose code
    (basic_auth/lock.py) is missing: a decorated method first waits for the
    lock of the collection, runs holding it, and releases it on every way
    out. *)
Definition start (c : call) : task :=
  if locking c then Waiting (body c) else Running false (body c).

Definition release (holds : bool) (locked : bool) : bool :=
  if holds then false else locked.

Definition initial (calls : list call) (items : gmap value Details) : collection :=
  mkCollection items false (start <$> calls).

(** The event loop resumes task [i]: a waiting task takes the lock when it
    is free, and cannot be resumed when it is not; a running task runs to
    its next [await], or ends, by returning or by raising. *)
Definition step (i : nat) (st : collection) : option collection :=
  match tasks st !! i with
  | Some (Waiting rest) =>
      if locked st then None
      else Some (mkCollection (items st) true (<[i := Running true rest]> (tasks st)))
  | Some (Running holds (Return r)) =>
      Some (mkCollection (items st) (release holds (locked st))
                         (<[i := Done (Ok r)]> (tasks st)))
  | Some (Running holds (Segment code rest)) =>
      match code (items st) with
      | (Ok a, items') =>
          Some (mkCollection items' (locked st) (<[i := Running holds (rest a)]> (tasks st)))
      | (Raise e, items') =>
          Some (mkCollection items' (release holds (locked st))
                             (<[i := Done (Raise e)]> (tasks st)))
      end
  | Some (Done _) | None => None
  end.

Fixpoint run (schedule : list nat) (st : collection) : option collection :=
  match schedule with
  | [] => Some st
  | i :: schedule =>
      match step i st with
      | Some st' => run schedule st'
      | None => None
      end
  end.

(** A coroutine run without interruption. *)
Fixpoint complete (rest : coroutine) : Py (gmap value Details) returned :=
  match rest with
  | Return r => py_ret r
  | Segment code rest =>
      fun items =>
        match code items with
        | (Ok a, items') => complete (rest a) items'
        | (Raise e, items') => (Raise e, items')
        end
  end.

(** The task holds the lock. *)
Definition holding (t : task) : bool :=
  match t with
  | Running true _ => true
  | _ => false
  end.

(** A task of the call [c] is where the decorator allows it: a method
    without the decorator neither waits for the lock nor holds it, and a
    decorated one runs only while it holds it. *)
Definition task_of (c : call) (t : task) : Prop :=
  match t with
  | Waiting _ => locking c = true
  | Running holds _ => holds = locking c
  | Done _ => True
  end.

(** The lock discipline: every task is where the decorator of its call
    allows it, at most one task holds the lock, and the lock is taken
    exactly when one does. *)
Definition disciplined (calls : list call) (st : collection) : Prop :=
  length (tasks st) = length calls
  /\ (forall i c t, calls !! i = Some c -> tasks st !! i = Some t -> task_of c t)
  /\ (forall i j ti tj,
        tasks st !! i = Some ti -> tasks st !! j = Some tj ->
        holding ti = true -> holding tj = true -> i = j)
  /\ (locked st = true <-> exists i t, tasks st !! i = Some t /\ holding t = true).

(** A coroutine that never writes [self.items]. *)
Fixpoint reader (rest : coroutine) : Prop :=
  match rest with
  | Return _ => True
  | Segment code rest =>
      (forall items, (code items).2 = items) /\ forall a, reader (rest a)
  end.

(** A method of the collection, as a call that returns a [returned]. *)
Definition returning {A} (wrap : A -> returned)
    (method : Py (gmap value Details) A) : Py (gmap value Details) returned :=
  fun items =>
    match method items with
    | (Ok a, items') => (Ok (wrap a), items')
    | (Raise e, items') => (Raise e, items')
    end.

(** The call run on its own: the method of the collection. *)
Definition alone (c : call) : Py (gmap value Details) returned :=
  match c with
  | CallCreate fresh details =>
      returning RDetails (MemoryCredentialsCollection.create fresh details)
  | CallGetAll => returning RAll MemoryCredentialsCollection.get_all
  | CallUpdate fresh user details =>
      returning RDetails (MemoryCredentialsCollection.update fresh user details)
  | CallDelete res_id =>
      returning (fun _ => RNone) (MemoryCredentialsCollection.delete res_id)
  | CallGet res_id => returning RDetails (MemoryCredentialsCollection.get res_id)
  | CallCredentialsMatch name pass =>
      returning RBool (MemoryCredentialsCollection.credentials_match name pass)
  | CallApiCredentialsMatch name pass =>
      returning RBool (MemoryCredentialsCollection.api_credentials_match name pass)
  end.

(** The calls listed in [order], each run to its end before the next
    starts: the outcome of each, and the store at the end. *)
Fixpoint serial (calls : list call) (order : list nat)
    (items : gmap value Details)
  : list (nat * result returned) * gmap value Details :=
  match order with
  | [] => ([], items)
  | i :: order =>
      match calls !! i with
      | Some c =>
          let ran := alone c items in
          let later := serial calls order ran.2 in
          ((i, ran.1) :: later.1, later.2)
      | None => serial calls order items
      end
  end.

(** The collection [st] is what running the calls of [order] one at a
    time gives, up to the call that holds the lock now. *)
Record serialized (calls : list call) (items0 : gmap value Details)
    (st : collection) (order : list nat) : Prop := {
  ser_nodup : NoDup order;
  ser_order : forall j, j ∈ order <->
    exists c r, calls !! j = Some c /\ locking c = true
                /\ tasks st !! j = Some (Done r);
  ser_outcomes : forall j r,
    (j, r) ∈ (serial calls order items0).1 -> tasks st !! j = Some (Done r);
  ser_idle : locked st = false -> items st = (serial calls order items0).2;
  ser_holder : forall h rest c,
    tasks st !! h = Some (Running true rest) -> calls !! h = Some c ->
    complete rest (items st) = alone c (serial calls order items0).2;
  ser_waiting : forall j c rest,
    calls !! j = Some c -> tasks st !! j = Some (Waiting rest) -> rest = body c;
  ser_reader : forall j rest,
    tasks st !! j = Some (Running false rest) -> reader rest
}.

End Tasks.
End Scheduler.

(** ** Outcomes that can be compared *)

#[global] Instance result_eq_dec {A} `{EqDecision A} : EqDecision (result A).
Proof. solve_decision. Defined.

#[global] Instance table_eq_dec : EqDecision TableModel.Table.
Proof. solve_decision. Defined.

#[global] Instance credentials_eq_dec : EqDecision Credentials.
Proof. solve_decision. Defined.

(** ** Listing the database-backed collection *)

(** The listing of the persistence model, [get_all_credentials], with its
    optional bounds on the date of the records. *)
Class Listing (DB Date : Type) : Type :=
  get_all_credentials : option Date -> option Date -> DB -> list Credentials.

Module DataBaseListing.
Section Methods.
Context {DB Date : Type} {listing : Listing DB Date}.

(** The row [get_all] yields for a record of the model. *)
Definition listed (credentials : Credentials) : Details :=
  {[ "user" := cred_user credentials;
     "username" := VStr (username (cred_auth credentials)) ]}.

(** [get_all] of [DataBaseCredentialsCollection]: the records are fetched
    inside the transaction, and a row is made of each. *)
Definition get_all (start_date end_date : option Date) : Py DB (list Details) :=
  transact (
    do db <- py_read;
    py_ret (listed <$> get_all_credentials start_date end_date db)).

End Methods.
End DataBaseListing.

(** ** Progress of concurrent calls *)

Module Progress.
Section Tasks.
Context {hash : HashFunction}.
Import Scheduler.

(** The pair [generate] would hand to the call is one it may return. *)
Definition call_ok (c : call) : Prop :=
  match c with
  | CallCreate fresh _ | CallUpdate fresh _ _ => generated_ok fresh
  | _ => True
  end.

(** Every call has ended. *)
Definition finished (st : collection) : Prop :=
  forall i t, tasks st !! i = Some t -> exists outcome, t = Done outcome.

(** Run from [items] to its end, the coroutine leaves unique usernames
    behind at each of its [await]s and when it ends. *)
Fixpoint safe (rest : coroutine) (items : gmap value Details) : Prop :=
  match rest with
  | Return _ => True
  | Segment code rest =>
      MemoryState.consistent (code items).2
      /\ match code items with
         | (Ok a, items') => safe (rest a) items'
         | (Raise _, _) => True
         end
  end.

(** The usernames are unique now, and stay so while the call that holds
    the lock runs on. *)
Definition steady (st : collection) : Prop :=
  MemoryState.consistent (items st)
  /\ forall h rest, tasks st !! h = Some (Running true rest) -> safe rest (items st).

End Tasks.
End Progress.

(** ** A scenario to run the collections on *)

Module Scenario.

Definition alice : value := VStr "alice".
Definition bob : value := VStr "bob".

(** A pair [generate] may return. *)
Definition generated : BasicAuthCredentials := mkAuth "kq3vX9aTz" "Wm5cPq0L".

Definition alice_details : Details :=
  {[ "user" := alice; "token" := VStr "alice_login:secret" ]}.

Definition bob_details : Details :=
  {[ "user" := bob; "token" := VStr "bob_login:hunter2" ]}.

(** Bob asks for the username of Alice. *)
Definition bob_as_alice : Details :=
  {[ "user" := bob; "token" := VStr "alice_login:other" ]}.

(** A password with a [:] in it: a token of three parts. *)
Definition colon_password : Details :=
  {[ "user" := alice; "token" := VStr "alice_login:pa:ss" ]}.

(** A request without a token. *)
Definition carol_details : Details := {[ "user" := VStr "carol" ]}.

Section Stores.
Context {hash : HashFunction}.

(** The in-memory collection after Alice was created. *)
Definition alice_only : gmap value Details :=
  MemoryState.run [Create generated alice_details] ∅.

(** The table after Alice and Bob were created. *)
Definition two_users : TableModel.Table :=
  TableState.run [Create generated alice_details; Create generated bob_details]
                 TableModel.empty.



(** Two calls at once: Alice is created, and the API credentials are
    checked. *)
Definition create_and_api : list Scheduler.call :=
  [Scheduler.CallCreate generated alice_details;
   Scheduler.CallApiCredentialsMatch "user" "pass"].

End Stores.
End Scenario.

(** Requests that change the record of Alice, and calls made at once. *)
Module Changes.
Import Scenario.


(** Alice changes her username. *)
Definition alice_renamed : Details :=
  {[ "user" := alice; "token" := VStr "alice_new:secret" ]}.

(** Two users are created while the records are listed. *)
Definition creates_and_listing : list Scheduler.call :=
  [Scheduler.CallCreate generated alice_details;
   Scheduler.CallGetAll;
   Scheduler.CallCreate generated bob_as_alice].

(** An interleaving of these calls: the listing runs, and ends, while the
    first [create] holds the lock. *)
Definition interleaving : list nat := [0; 0; 1; 0; 0; 2; 2; 1]%nat.

Section Stores.
Context {hash : HashFunction}.

(** The in-memory collection after Alice was created and renamed. *)
Definition renamed : gmap value Details :=
  MemoryState.run [Create generated alice_details;
                   Update generated alice alice_renamed] ∅.

End Stores.
End Changes.

(** * Properties *)

(** ** Splitting and joining *)

Module PyStrFacts.
Import PyStr.

Lemma split_not_nil sep s : split sep s <> [].
Proof.
  destruct s as [|a s]; simpl; [discriminate|].
  destruct (Ascii.eqb a sep); [discriminate|].
  destruct (split sep s); discriminate.
Qed.

Lemma join_cons_char sep a part parts :
  join sep (String a part :: parts) = String a (join sep (part :: parts)).
Proof. destruct parts; reflexivity. Qed.

Lemma join_split sep s : join (String sep EmptyString) (split sep s) = s.
Proof.
  induction s as [|a s IH]; simpl; [reflexivity|].
  destruct (Ascii.eqb_spec a sep) as [->|Hne].
  - destruct (split sep s) eqn:E; [by apply split_not_nil in E|].
    simpl in *. by rewrite IH.
  - destruct (split sep s) eqn:E; [by apply split_not_nil in E|].
    by rewrite join_cons_char, IH.
Qed.

Lemma contains_app c s t : contains c (s +:+ t) = contains c s || contains c t.
Proof.
  induction s as [|a s IH]; simpl; [reflexivity|].
  by rewrite IH, orb_assoc.
Qed.

Lemma split_without sep s : contains sep s = false -> split sep s = [s].
Proof.
  induction s as [|a s IH]; simpl; [reflexivity|].
  intros [Ha Hs]%orb_false_elim. by rewrite Ha, (IH Hs).
Qed.

Lemma split_app sep u p :
  contains sep u = false ->
  split sep (u +:+ String sep p) = u :: split sep p.
Proof.
  induction u as [|a u IH]; simpl.
  - intros _. by rewrite Ascii.eqb_refl.
  - intros [Ha Hu]%orb_false_elim. by rewrite Ha, (IH Hu).
Qed.

Lemma split_parts_without sep s :
  Forall (fun part => contains sep part = false) (split sep s).
Proof.
  induction s as [|a s IH]; simpl; [by repeat constructor|].
  destruct (Ascii.eqb a sep) eqn:Ha; [by constructor|].
  destruct (split sep s) as [|part parts].
  { repeat constructor. simpl. by rewrite Ha. }
  inversion_clear IH as [|? ? Hp Hps]. constructor; [|done].
  simpl. by rewrite Ha, Hp.
Qed.

(** A string has exactly the two parts [u] and [p] when it is [u:p] and
    neither holds the separator. *)
Lemma split_two sep s u p :
  split sep s = [u; p] <->
  s = u +:+ String sep p /\ contains sep u = false /\ contains sep p = false.
Proof.
  split.
  - intros E. pose proof (join_split sep s) as J.
    pose proof (split_parts_without sep s) as F. rewrite E in J, F.
    inversion_clear F as [|? ? Hu F']. inversion_clear F' as [|? ? Hp _].
    by rewrite <- J.
  - intros (-> & Hu & Hp). by rewrite split_app, (split_without _ _ Hp).
Qed.

Lemma split1_app sep u p :
  contains sep u = false -> split1 sep (u +:+ String sep p) = [u; p].
Proof.
  induction u as [|a u IH]; simpl.
  - intros _. by rewrite Ascii.eqb_refl.
  - intros [Ha Hu]%orb_false_elim. by rewrite Ha, (IH Hu).
Qed.

Lemma split1_without sep s : contains sep s = false -> split1 sep s = [s].
Proof.
  induction s as [|a s IH]; simpl; [reflexivity|].
  intros [Ha Hs]%orb_false_elim. by rewrite Ha, (IH Hs).
Qed.

Lemma split1_two sep s u p :
  split1 sep s = [u; p] <-> s = u +:+ String sep p /\ contains sep u = false.
Proof.
  split; [|intros [-> Hu]; by apply split1_app].
  revert u. induction s as [|a s IH]; simpl; intros u; [discriminate|].
  destruct (Ascii.eqb_spec a sep) as [->|Hne].
  - by intros [= <- <-].
  - destruct (split1 sep s) as [|part parts] eqn:E; [discriminate|].
    intros [= <- ->]. destruct (IH part eq_refl) as [-> Hpart].
    split; [done|]. simpl. rewrite Hpart.
    by destruct (Ascii.eqb_spec a sep).
Qed.

Lemma split1_length sep s : (length (split1 sep s) <= 2)%nat.
Proof.
  induction s as [|a s IH]; simpl; [lia|].
  destruct (Ascii.eqb a sep); simpl; [lia|].
  destruct (split1 sep s); simpl in *; lia.
Qed.

Lemma app_sep_inj sep u p u' p' :
  contains sep u = false -> contains sep u' = false ->
  u +:+ String sep p = u' +:+ String sep p' -> u = u' /\ p = p'.
Proof.
  intros Hu Hu' E.
  pose proof (split1_app sep u p Hu) as S1.
  rewrite E, (split1_app sep u' p' Hu') in S1. by injection S1.
Qed.

Lemma has_empty_two u p :
  has_empty [u; p] = false <-> u <> EmptyString /\ p <> EmptyString.
Proof.
  unfold has_empty. simpl.
  destruct u, p; simpl; split; try done; intros [? ?]; congruence.
Qed.

End PyStrFacts.

(** ** Tokens *)

Section TokenFacts.
Context {hash : HashFunction}.
Import PyStr PyStrFacts.

Lemma prep_token_two_parts token u p :
  split colon token = [u; p] -> u <> EmptyString -> p <> EmptyString ->
  _prep_token (Some token) = Some (u +:+ ":" +:+ hash_token256 p).
Proof.
  intros E Hu Hp. unfold _prep_token. rewrite E.
  assert (has_empty [u; p] = false) as -> by by apply has_empty_two.
  reflexivity.
Qed.

Lemma prep_token_unchanged token :
  (forall u p, split colon token = [u; p] -> u <> EmptyString -> p = EmptyString) ->
  _prep_token (Some token) = Some token.
Proof.
  intros H. unfold _prep_token.
  destruct (split colon token) as [|u [|p [|? ?]]] eqn:E; try reflexivity.
  destruct (has_empty [u; p]) eqn:Hempty; [reflexivity|].
  apply has_empty_two in Hempty as [Hu Hp]. by specialize (H u p eq_refl Hu).
Qed.

Lemma prep_token_colon_free u p :
  u <> EmptyString -> p <> EmptyString ->
  contains colon u = false -> contains colon p = false ->
  _prep_token (Some (u +:+ ":" +:+ p)) = Some (u +:+ ":" +:+ hash_token256 p).
Proof.
  intros Hu Hp Cu Cp. apply prep_token_two_parts; [|done..]. by apply split_two.
Qed.

(** C5. [_prep_token] replaces the second component of a token by its hash
    exactly when the token consists of two non-empty parts [u:p]; any other
    token (no separator, an empty component, more than two parts) comes
    back as it was, and [None] stays [None]; no case raises. *)
Theorem prep_token_hashes_exactly_two_parts :
  (forall u p,
      u <> EmptyString -> p <> EmptyString ->
      contains colon u = false -> contains colon p = false ->
      _prep_token (Some (u +:+ ":" +:+ p)) = Some (u +:+ ":" +:+ hash_token256 p))
  /\ (forall token,
      ~ (exists u p, token = u +:+ ":" +:+ p /\ u <> EmptyString /\ p <> EmptyString
                     /\ contains colon u = false /\ contains colon p = false) ->
      _prep_token (Some token) = Some token)
  /\ (forall token, contains colon token = false ->
      _prep_token (Some token) = Some token)
  /\ (forall token, In EmptyString (split colon token) ->
      _prep_token (Some token) = Some token)
  /\ _prep_token None = None.
Proof.
  split; [|split; [|split; [|split]]].
  - apply prep_token_colon_free.
  - intros token Hnot. apply prep_token_unchanged. intros u p E Hu.
    destruct p as [|a p]; [reflexivity|]. exfalso. apply Hnot.
    apply split_two in E as (-> & Cu & Cp). by exists u, (String a p).
  - intros token Hc. apply prep_token_unchanged. intros u p E _.
    rewrite (split_without _ _ Hc) in E. discriminate.
  - intros token Hin. apply prep_token_unchanged. intros u p E Hu.
    rewrite E in Hin. destruct Hin as [->|[->|[]]]; done.
  - reflexivity.
Qed.

(** C3, as the code has it. Preparing a prepared token hashes the second
    component again: for a raw token [u:p] with two non-empty parts, and a
    hash of [p] that is non-empty and free of the separator, two rounds of
    [_prep_token] give [u:hash(hash(p))], which is the result of one round
    only if [hash(p)] is a fixed point of the hash. *)
Theorem prep_token_twice u p :
  u <> EmptyString -> p <> EmptyString ->
  contains colon u = false -> contains colon p = false ->
  hash_token256 p <> EmptyString -> contains colon (hash_token256 p) = false ->
  _prep_token (_prep_token (Some (u +:+ ":" +:+ p)))
    = Some (u +:+ ":" +:+ hash_token256 (hash_token256 p))
  /\ (_prep_token (_prep_token (Some (u +:+ ":" +:+ p)))
        = _prep_token (Some (u +:+ ":" +:+ p))
      <-> hash_token256 (hash_token256 p) = hash_token256 p).
Proof.
  intros Hu Hp Cu Cp Hh Ch.
  rewrite (prep_token_colon_free u p Hu Hp Cu Cp).
  rewrite (prep_token_colon_free u _ Hu Hh Cu Ch).
  split; [reflexivity|]. split.
  - intros [= E]. by apply (app_sep_inj colon) in E as [_ ?].
  - by intros ->.
Qed.

End TokenFacts.

(** ** Reading credentials from a token *)

Section AuthFacts.
Context {hash : HashFunction}.
Import PyStr PyStrFacts.

Lemma from_token_Ok token auth :
  from_token token = Ok auth <-> token = auth_str auth /\ auth_ok auth.
Proof.
  unfold from_token, auth_str, auth_ok. split.
  - destruct (has_empty (split1 colon token)) eqn:Hempty;
      [by rewrite andb_false_r|].
    destruct (split1 colon token) as [|u [|p [|? ?]]] eqn:E; try discriminate.
    intros [= <-]. simpl. apply has_empty_two in Hempty as [Hu Hp].
    by apply split1_two in E as [-> Cu].
  - destruct auth as [u p]. simpl. intros (-> & Hu & Hp & Cu).
    change (u +:+ ":" +:+ p) with (u +:+ String colon p).
    rewrite (split1_app colon u p Cu).
    by assert (has_empty [u; p] = false) as -> by by apply has_empty_two.
Qed.

Lemma from_token_cases token :
  (exists auth, from_token token = Ok auth) \/ from_token token = Raise MalformedToken.
Proof.
  unfold from_token.
  destruct ((length (split1 colon token) =? 2)%nat && _); eauto.
Qed.

Lemma from_token_str auth : auth_ok auth -> from_token (auth_str auth) = Ok auth.
Proof. intros. by apply from_token_Ok. Qed.

Lemma generated_auth_ok fresh : generated_ok fresh -> auth_ok fresh.
Proof. unfold generated_ok, auth_ok. tauto. Qed.

Lemma get_auth_ok fresh token auth :
  generated_ok fresh -> _get_auth fresh token = Ok auth -> auth_ok auth.
Proof.
  intros Hfresh. destruct token as [[|a t]|]; simpl.
  - intros [= <-]. by apply generated_auth_ok.
  - by intros [_ ?]%from_token_Ok.
  - intros [= <-]. by apply generated_auth_ok.
Qed.

Lemma get_auth_cases fresh token :
  (exists auth, _get_auth fresh token = Ok auth)
  \/ _get_auth fresh token = Raise MalformedToken.
Proof.
  destruct token as [[|a t]|]; simpl; eauto using from_token_cases.
Qed.

(** A token of two non-empty parts is read as itself. *)
Lemma get_auth_two_parts fresh u p :
  u <> EmptyString -> p <> EmptyString -> contains colon u = false ->
  _get_auth fresh (Some (u +:+ ":" +:+ p)) = Ok (mkAuth u p).
Proof.
  intros Hu Hp Cu. destruct u as [|a u]; [done|]. simpl.
  by apply (from_token_Ok (String a (u +:+ ":" +:+ p)) (mkAuth (String a u) p)).
Qed.

End AuthFacts.

(** ** The in-memory collection *)

Module MemoryFacts.
Section Facts.
Context {hash : HashFunction}.
Import MemoryCredentialsCollection MemoryState.

Lemma check_entries_cases user name entries :
  Forall (fun entry => exists auth, stored_auth entry.2 = Ok auth) entries ->
  (check_entries user name entries = Ok tt
   /\ forall other details auth,
        (other, details) ∈ entries -> stored_auth details = Ok auth ->
        username auth = name -> other = user)
  \/ (check_entries user name entries = Raise taken
      /\ exists other details auth,
           (other, details) ∈ entries /\ stored_auth details = Ok auth
           /\ username auth = name /\ other <> user).
Proof.
  induction 1 as [|[other details] rest [auth Hauth] _ IH]; simpl.
  - left. split; [done|]. intros ? ? ? []%elem_of_nil.
  - simpl in Hauth. rewrite Hauth.
    destruct (decide (username auth = name)) as [Hname|Hname];
      [destruct (decide (user = other)) as [Huser|Huser]|].
    + rewrite (bool_decide_eq_true_2 _ Hname), (bool_decide_eq_true_2 _ Huser).
      simpl. destruct IH as [[-> IH]|[-> (o & d & a & Hin & IH)]].
      * left. split; [done|]. intros o d a [[= -> ->]|Hin]%elem_of_cons; eauto.
      * right. split; [done|]. exists o, d, a. rewrite elem_of_cons; eauto.
    + rewrite (bool_decide_eq_true_2 _ Hname), (bool_decide_eq_false_2 _ Huser).
      simpl. right. split; [done|]. exists other, details, auth.
      rewrite elem_of_cons. auto.
    + rewrite (bool_decide_eq_false_2 _ Hname). simpl.
      destruct IH as [[-> IH]|[-> (o & d & a & Hin & IH)]].
      * left. split; [done|]. intros o d a [[= -> ->]|Hin]%elem_of_cons; [|by eauto].
        intros. congruence.
      * right. split; [done|]. exists o, d, a. rewrite elem_of_cons; eauto.
Qed.

Lemma well_formed_entries items :
  well_formed items ->
  Forall (fun entry => exists auth, stored_auth entry.2 = Ok auth) (map_to_list items).
Proof.
  intros Hwf. apply Forall_forall. intros [user details] Hin.
  apply elem_of_map_to_list in Hin. by apply (Hwf user).
Qed.

(** The check passes when no other user holds the username, and raises
    when another one does; it never writes. *)
Lemma check_duplicated_cases items user name :
  well_formed items ->
  (_check_duplicated_username user name items = (Ok tt, items)
   /\ forall other auth, record_auth items other auth ->
        username auth = name -> other = user)
  \/ (_check_duplicated_username user name items = (Raise taken, items)
      /\ exists other auth, record_auth items other auth
           /\ username auth = name /\ other <> user).
Proof.
  intros Hwf. unfold _check_duplicated_username, py_bind, py_read, py_lift.
  destruct (check_entries_cases user name _ (well_formed_entries _ Hwf))
    as [[-> H]|[-> (o & d & a & Hin & Hauth & Hname & Hne)]].
  - left. split; [done|]. intros other auth (details & Hlook & Hauth).
    apply (H other details auth); [|done]. by apply elem_of_map_to_list.
  - right. split; [done|]. exists o, a. split; [|done].
    exists d. split; [|done]. by apply elem_of_map_to_list.
Qed.

Lemma check_duplicated_store items user name :
  (_check_duplicated_username user name items).2 = items.
Proof. reflexivity. Qed.

(** [create], step by step. *)
Lemma memory_create_unfold fresh details items :
  create fresh details items =
  match _get_auth fresh (_prep_token (dict_get details "token")) with
  | Raise e => (Raise e, items)
  | Ok auth =>
      match details !! "user" with
      | None => (Raise (KeyError "user"), items)
      | Some user =>
          match (_check_duplicated_username user (username auth) items).1 with
          | Raise e => (Raise e, items)
          | Ok _ =>
              let details' := <["token" := VStr (auth_str auth)]> details in
              match items !! user with
              | Some _ => (Raise (ResourceAlreadyExists user), items)
              | None => (Ok details', <[user := details']> items)
              end
          end
      end
  end.
Proof.
  unfold create, create_details, _check_duplicated_username, py_bind, py_lift, py_read.
  destruct (_get_auth _ _) as [auth|e]; [|done].
  destruct (details !! "user") as [user|] eqn:Huser; [|done].
  unfold py_ret. simpl.
  destruct (check_entries _ _ _); [|done].
  unfold SampleResourceCollection.create.
  rewrite lookup_insert_ne, Huser by done.
  unfold py_bind, py_read, py_raise, py_write, py_ret.
  by destruct (items !! user).
Qed.

Lemma memory_update_unfold fresh user details items :
  update fresh user details items =
  match _get_auth fresh (_prep_token (dict_get details "token")) with
  | Raise e => (Raise e, items)
  | Ok auth =>
      match (_check_duplicated_username user (username auth) items).1 with
      | Raise e => (Raise e, items)
      | Ok _ =>
          let details' := <["token" := VStr (auth_str auth)]> details in
          match items !! user with
          | None => (Raise (ResourceNotFound user), items)
          | Some _ => (Ok details', <[user := details']> items)
          end
      end
  end.
Proof.
  unfold update, update_details, _check_duplicated_username, py_bind, py_lift, py_read.
  destruct (_get_auth _ _) as [auth|e]; [|done].
  unfold py_ret. simpl.
  destruct (check_entries _ _ _); [|done].
  unfold SampleResourceCollection.update, py_bind, py_read, py_raise, py_write, py_ret.
  by destruct (items !! user).
Qed.

Lemma memory_delete_unfold user items :
  delete user items =
  match items !! user with
  | None => (Raise (ResourceNotFound user), items)
  | Some _ => (Ok tt, base.delete user items)
  end.
Proof.
  unfold delete, SampleResourceCollection.delete, py_bind, py_read, py_raise, py_write.
  by destruct (items !! user).
Qed.

Lemma memory_get_unfold user items :
  get user items =
  match items !! user with
  | None => (Raise (ResourceNotFound user), items)
  | Some details => (Ok details, items)
  end.
Proof.
  unfold get, SampleResourceCollection.get, py_bind, py_read, py_raise, py_ret.
  by destruct (items !! user).
Qed.

(** An operation that raises leaves [self.items] as it found it. *)
Lemma create_raise fresh details items e items' :
  create fresh details items = (Raise e, items') -> items' = items.
Proof.
  rewrite memory_create_unfold.
  repeat (case_match; try congruence); simpl; congruence.
Qed.

Lemma update_raise fresh user details items e items' :
  update fresh user details items = (Raise e, items') -> items' = items.
Proof.
  rewrite memory_update_unfold.
  repeat (case_match; try congruence); simpl; congruence.
Qed.

Lemma stored_auth_token details auth :
  auth_ok auth ->
  stored_auth (<["token" := VStr (auth_str auth)]> details) = Ok auth.
Proof.
  intros Hok. unfold stored_auth. rewrite lookup_insert_eq.
  by apply from_token_str.
Qed.

Lemma record_auth_insert items user details auth other a :
  stored_auth details = Ok auth ->
  record_auth (<[user := details]> items) other a <->
  (other = user /\ a = auth) \/ (other <> user /\ record_auth items other a).
Proof.
  intros Hauth. unfold record_auth.
  destruct (decide (other = user)) as [->|Hne].
  - rewrite lookup_insert_eq. split.
    + intros (d & [= <-] & Ha). left. split; congruence.
    + intros [[_ ->]|[? _]]; [eauto|done].
  - rewrite lookup_insert_ne by done. split; [by right|].
    by intros [[? _]|[_ ?]].
Qed.

Lemma insert_consistent items user details auth :
  consistent items -> stored_auth details = Ok auth ->
  (forall other a, record_auth items other a ->
     username a = username auth -> other = user) ->
  consistent (<[user := details]> items).
Proof.
  intros [Hwf Huniq] Hauth Hfree. split.
  - intros k d. destruct (decide (k = user)) as [->|Hne].
    + rewrite lookup_insert_eq. intros [= <-]. eauto.
    + rewrite lookup_insert_ne by done. apply Hwf.
  - intros k1 k2 a1 a2 H1 H2 Hname.
    apply (record_auth_insert _ _ _ _ _ _ Hauth) in H1, H2.
    destruct H1 as [[-> ->]|[Hne1 H1]], H2 as [[-> ->]|[Hne2 H2]]; [done| | |].
    + symmetry. by apply (Hfree k2 a2).
    + by apply (Hfree k1 a1).
    + by apply (Huniq k1 k2 a1 a2).
Qed.

Lemma delete_consistent items user :
  consistent items -> consistent (base.delete user items).
Proof.
  assert (forall k a, record_auth (base.delete user items) k a -> record_auth items k a)
    as Hsub.
  { intros k a (d & Hlook & Ha). apply lookup_delete_Some in Hlook as [_ Hlook].
    by exists d. }
  intros [Hwf Huniq]. split.
  - intros k d [_ Hlook]%lookup_delete_Some. by apply (Hwf k).
  - intros k1 k2 a1 a2 H1 H2. apply Huniq; by apply Hsub.
Qed.

Lemma create_consistent fresh details items :
  generated_ok fresh -> consistent items ->
  consistent (create fresh details items).2.
Proof.
  intros Hfresh Hcons. rewrite memory_create_unfold.
  destruct (_get_auth _ _) as [auth|e] eqn:Hauth; [|done].
  apply (get_auth_ok _ _ _ Hfresh) in Hauth.
  destruct (details !! "user") as [user|]; [|done].
  destruct (check_duplicated_cases items user (username auth) (proj1 Hcons))
    as [[-> Hfree]|[-> _]]; [|done].
  simpl. destruct (items !! user); [done|]. simpl.
  eapply insert_consistent; eauto using stored_auth_token.
Qed.

Lemma update_consistent fresh user details items :
  generated_ok fresh -> consistent items ->
  consistent (update fresh user details items).2.
Proof.
  intros Hfresh Hcons. rewrite memory_update_unfold.
  destruct (_get_auth _ _) as [auth|e] eqn:Hauth; [|done].
  apply (get_auth_ok _ _ _ Hfresh) in Hauth.
  destruct (check_duplicated_cases items user (username auth) (proj1 Hcons))
    as [[-> Hfree]|[-> _]]; [|done].
  simpl. destruct (items !! user); [|done]. simpl.
  eapply insert_consistent; eauto using stored_auth_token.
Qed.

Lemma step_consistent items op :
  operation_ok op -> consistent items -> consistent (step items op).
Proof.
  destruct op as [fresh details|fresh user details|user]; simpl.
  - apply create_consistent.
  - apply update_consistent.
  - intros _ Hcons. rewrite memory_delete_unfold.
    destruct (items !! user); [|done]. by apply delete_consistent.
Qed.

Lemma run_consistent ops items :
  Forall operation_ok ops -> consistent items -> consistent (run ops items).
Proof.
  intros Hops. revert items.
  induction Hops as [|op ops Hop _ IH]; intros items Hcons; [done|].
  simpl. apply IH. by apply step_consistent.
Qed.

Lemma empty_consistent : consistent (∅ : gmap value Details).
Proof.
  split.
  - intros user details. by rewrite lookup_empty.
  - intros user1 ? ? ? (details & Hlook & _). by rewrite lookup_empty in Hlook.
Qed.

(** A username held by another user's record is refused, whether or not
    the user of the request has a record. *)
Lemma create_taken fresh details items user auth other held :
  well_formed items ->
  _get_auth fresh (_prep_token (dict_get details "token")) = Ok auth ->
  details !! "user" = Some user ->
  record_auth items other held -> other <> user ->
  username held = username auth ->
  create fresh details items = (Raise taken, items).
Proof.
  intros Hwf Hauth Huser Hheld Hne Hname. rewrite memory_create_unfold, Hauth, Huser.
  destruct (check_duplicated_cases items user (username auth) Hwf)
    as [[_ Hfree]|[-> _]]; [|done].
  by destruct Hne; apply (Hfree other held).
Qed.

Lemma update_taken fresh user details items auth other held :
  well_formed items ->
  _get_auth fresh (_prep_token (dict_get details "token")) = Ok auth ->
  record_auth items other held -> other <> user ->
  username held = username auth ->
  update fresh user details items = (Raise taken, items).
Proof.
  intros Hwf Hauth Hheld Hne Hname. rewrite memory_update_unfold, Hauth.
  destruct (check_duplicated_cases items user (username auth) Hwf)
    as [[_ Hfree]|[-> _]]; [|done].
  by destruct Hne; apply (Hfree other held).
Qed.

End Facts.
End MemoryFacts.

(** ** The database-backed collection, over any model *)

Module DataBaseFacts.
Section Facts.
Context {hash : HashFunction} {DB : Type} {model : Model DB}.
Import DataBaseCredentialsCollection.

Lemma check_duplicated_unfold user name db :
  _check_duplicated_username user name db =
  (if username_free user name db then Ok tt else Raise taken, db).
Proof.
  unfold _check_duplicated_username, username_free, py_bind, py_read.
  destruct (get_credentials_username name db) as [c|]; [|done].
  destruct (decide (cred_user c = user)) as [Heq|Hne].
  - by rewrite (bool_decide_eq_false_2 (cred_user c <> user)), bool_decide_eq_true_2 by auto.
  - by rewrite (bool_decide_eq_true_2 (cred_user c <> user)), bool_decide_eq_false_2 by auto.
Qed.

Lemma database_create_unfold fresh details db :
  create fresh details db =
  match details !! "user" with
  | None => (Raise (KeyError "user"), db)
  | Some user =>
      if is_known_user user db then (Raise (ResourceAlreadyExists user), db)
      else
        match _get_auth fresh (dict_get details "token") with
        | Raise e => (Raise e, db)
        | Ok auth =>
            if username_free user (username auth) db
            then (Ok (user, {[ "user" := user; "token" := VStr (auth_str auth) ]}),
                  add_credentials user (username auth) (password auth) db)
            else (Raise taken, db)
        end
  end.
Proof.
  unfold create, transact, py_bind.
  destruct (details !! "user") as [user|]; [|done].
  unfold py_ret, py_read. destruct (is_known_user user db); [done|].
  unfold py_lift. destruct (_get_auth _ _) as [auth|e]; [|done].
  rewrite check_duplicated_unfold.
  by destruct (username_free _ _ _).
Qed.

Lemma database_update_unfold fresh user details db :
  update fresh user details db =
  if is_known_user user db then
    match _get_auth fresh (dict_get details "token") with
    | Raise e => (Raise e, db)
    | Ok auth =>
        if username_free user (username auth) db
        then (Ok {[ "user" := user; "token" := VStr (auth_str auth) ]},
              update_credentials user (username auth) (password auth) db)
        else (Raise taken, db)
    end
  else (Raise (ResourceNotFound user), db).
Proof.
  unfold update, transact, py_bind, py_read.
  destruct (is_known_user user db); [|done]. simpl.
  unfold py_lift. destruct (_get_auth _ _) as [auth|e]; [|done].
  rewrite check_duplicated_unfold.
  by destruct (username_free _ _ _).
Qed.

Lemma database_delete_unfold user db :
  delete user db =
  if (remove_credentials user db).1
  then (Ok tt, (remove_credentials user db).2)
  else (Raise (ResourceNotFound user), db).
Proof.
  unfold delete, transact, py_bind, py_read.
  by destruct (remove_credentials user db) as [[] db'].
Qed.




End Facts.
End DataBaseFacts.

(** ** The database-backed collection, over the table model *)

Module TableFacts.
Section Facts.
Context {hash : HashFunction}.
Import TableModel TableState DataBaseCredentialsCollection.

Lemma by_username_Some name table found :
  by_username name table = Some found ->
  credentials table !! cred_user found
    = Some (name, password (cred_auth found))
  /\ username (cred_auth found) = name.
Proof.
  unfold by_username.
  destruct (List.find _ _) as [[user [n h]]|] eqn:E; [|done].
  intros [= <-]. apply find_some in E as [Hin Hname]. simpl in *.
  apply bool_decide_eq_true in Hname as ->.
  by apply list_elem_of_In, elem_of_map_to_list in Hin.
Qed.

Lemma by_username_None name table user row :
  by_username name table = None ->
  credentials table !! user = Some row -> row.1 <> name.
Proof.
  unfold by_username.
  destruct (List.find _ _) eqn:E; [done|]. intros _ Hrow.
  apply elem_of_map_to_list, list_elem_of_In in Hrow.
  apply (find_none _ _ E) in Hrow. by apply bool_decide_eq_false in Hrow.
Qed.

Lemma by_username_unique name table user hashed :
  unique_usernames table ->
  credentials table !! user = Some (name, hashed) ->
  by_username name table = Some (mkCredentials user (mkAuth name hashed)).
Proof.
  intros Huniq Hrow. destruct (by_username name table) as [[k [n h]]|] eqn:E.
  - apply by_username_Some in E as [Hk Hn]. simpl in *. subst n.
    assert (k = user) as -> by by apply (Huniq _ _ _ _ Hk Hrow).
    congruence.
  - by destruct (by_username_None _ _ _ _ E Hrow).
Qed.

(** When the check of the collection passes on a table with unique
    usernames, no other user holds the username. *)
Lemma username_free_rows user name table :
  unique_usernames table -> username_free user name table = true ->
  forall other row, credentials table !! other = Some row ->
    row.1 = name -> other = user.
Proof.
  unfold username_free. simpl. intros Huniq Hfree other row Hrow Hname.
  destruct (by_username name table) as [found|] eqn:E.
  - apply bool_decide_eq_true in Hfree as <-.
    apply by_username_Some in E as [Hfound _].
    by apply (Huniq _ _ _ _ Hrow Hfound).
  - by destruct (by_username_None _ _ _ _ E Hrow).
Qed.

Lemma store_unique user name pass table :
  unique_usernames table ->
  (forall other row, credentials table !! other = Some row ->
     row.1 = name -> other = user) ->
  unique_usernames (store user name pass table).
Proof.
  intros Huniq Hfree k1 k2 r1 r2. simpl.
  destruct (decide (k1 = user)) as [->|H1], (decide (k2 = user)) as [->|H2];
    rewrite ?lookup_insert_eq, ?lookup_insert_ne by done; [done| | |].
  - intros [= <-] Hr2 Hname. symmetry. by apply (Hfree k2 r2).
  - intros Hr1 [= <-] Hname. by apply (Hfree k1 r1).
  - apply Huniq.
Qed.

Lemma step_unique table op :
  unique_usernames table -> unique_usernames (step table op).
Proof.
  intros Huniq. destruct op as [fresh details|fresh user details|user]; simpl.
  - rewrite DataBaseFacts.database_create_unfold.
    destruct (details !! "user") as [user|]; [|done].
    destruct (is_known_user user table); [done|].
    destruct (_get_auth _ _) as [auth|]; [|done].
    destruct (username_free _ _ _) eqn:Hfree; [|done].
    apply store_unique; [done|]. by apply username_free_rows.
  - rewrite DataBaseFacts.database_update_unfold.
    destruct (is_known_user user table) eqn:Hknown; [|done].
    destruct (_get_auth _ _) as [auth|]; [|done].
    destruct (username_free _ _ _) eqn:Hfree; [|done].
    simpl in *. rewrite Hknown.
    apply store_unique; [done|]. by apply username_free_rows.
  - rewrite DataBaseFacts.database_delete_unfold. simpl.
    destruct (bool_decide _); [|done]. simpl.
    intros k1 k2 r1 r2. simpl.
    intros [_ Hr1]%lookup_delete_Some [_ Hr2]%lookup_delete_Some.
    by apply Huniq.
Qed.

Lemma run_unique ops table :
  unique_usernames table -> unique_usernames (run ops table).
Proof.
  revert table. induction ops as [|op ops IH]; intros table Huniq; [done|].
  simpl. by apply IH, step_unique.
Qed.

Lemma empty_unique : unique_usernames TableModel.empty.
Proof. intros user1 ? ? ?. simpl. by rewrite lookup_empty. Qed.

End Facts.
End TableFacts.

(** ** The claims about both collections *)

Section Collections.
Context {hash : HashFunction}.
Import PyStr PyStrFacts.

(** C10. In the in-memory collection a [create] or an [update] that raises
    [InvalidResourceDetails] leaves [self.items] exactly as it was: the
    duplicate-username check raises before anything is inserted or
    overwritten. *)
Theorem memory_invalid_details_keeps_items :
  (forall fresh details items message items',
      MemoryCredentialsCollection.create fresh details items
        = (Raise (InvalidResourceDetails message), items') ->
      items' = items)
  /\ (forall fresh user details items message items',
      MemoryCredentialsCollection.update fresh user details items
        = (Raise (InvalidResourceDetails message), items') ->
      items' = items).
Proof.
  split.
  - intros *. apply MemoryFacts.create_raise.
  - intros *. apply MemoryFacts.update_raise.
Qed.

(** C1, as the code has it. Whatever sequence of create, update and delete
    runs on an empty collection, no two live records with distinct user
    keys have the same username, in the in-memory collection (where every
    stored token still reads back as credentials) and in the database-backed
    one; and a create or update whose username is the one in
    the stored token of a different user fails and changes nothing. The
    error is [InvalidResourceDetails] in the in-memory collection; in the
    database-backed one it is [InvalidResourceDetails] unless the check of
    the user key fails first: [ResourceAlreadyExists] for a create of a
    known user, [ResourceNotFound] for an update of an unknown one. *)
Theorem usernames_stay_unique :
  (forall ops, Forall operation_ok ops ->
     MemoryState.consistent (MemoryState.run ops ∅))
  /\ (forall fresh details user items auth other held,
       MemoryState.well_formed items ->
       _get_auth fresh (_prep_token (dict_get details "token")) = Ok auth ->
       MemoryState.record_auth items other held -> other <> user ->
       username held = username auth ->
       (details !! "user" = Some user ->
        MemoryCredentialsCollection.create fresh details items = (Raise taken, items))
       /\ MemoryCredentialsCollection.update fresh user details items
          = (Raise taken, items))
  /\ (forall ops, TableState.unique_usernames (TableState.run ops TableModel.empty))
  /\ (forall DB (model : Model DB) fresh details user db auth held,
       _get_auth fresh (dict_get details "token") = Ok auth ->
       get_credentials_username (username auth) db = Some held ->
       cred_user held <> user ->
       (details !! "user" = Some user ->
        DataBaseCredentialsCollection.create fresh details db
        = (Raise (if is_known_user user db
                  then ResourceAlreadyExists user else taken), db))
       /\ DataBaseCredentialsCollection.update fresh user details db
          = (Raise (if is_known_user user db
                    then taken else ResourceNotFound user), db)).
Proof.
  split; [|split; [|split]].
  - intros ops Hops.
    by apply MemoryFacts.run_consistent, MemoryFacts.empty_consistent.
  - intros * Hwf Hauth Hheld Hne Hname. split.
    + intros Huser. by eapply MemoryFacts.create_taken.
    + by eapply MemoryFacts.update_taken.
  - intros ops. apply TableFacts.run_unique, TableFacts.empty_unique.
  - intros * Hauth Hheld Hne.
    assert (username_free user (username auth) db = false) as Hfree.
    { unfold username_free. rewrite Hheld. by apply bool_decide_eq_false_2. }
    split.
    + intros Huser. rewrite DataBaseFacts.database_create_unfold, Huser.
      destruct (is_known_user user db); [done|]. by rewrite Hauth, Hfree.
    + rewrite DataBaseFacts.database_update_unfold.
      destruct (is_known_user user db); [|done]. by rewrite Hauth, Hfree.
Qed.

Lemma tokens_of_Ok records :
  Forall (fun details : Details => is_Some (details !! "token")) records ->
  exists tokens,
    MemoryCredentialsCollection.tokens_of records = Ok tokens
    /\ forall token, token ∈ tokens <->
         exists details, details ∈ records /\ details !! "token" = Some token.
Proof.
  induction 1 as [|details rest [token Htoken] _ (tokens & IH & Hin)]; simpl.
  - exists []. split; [done|]. intros token. split.
    + by intros ?%elem_of_nil.
    + by intros (? & ?%elem_of_nil & _).
  - rewrite Htoken, IH. exists (token :: tokens). split; [done|].
    intros t. rewrite elem_of_cons, Hin. split.
    + intros [->|(d & Hd & Ht)].
      * exists details. by rewrite elem_of_cons; auto.
      * exists d. by rewrite elem_of_cons; auto.
    + intros (d & [->|Hd]%elem_of_cons & Ht); [left; congruence|right; eauto].
Qed.

(** The in-memory match is a search for the token [name:hash(pass)]. *)
Lemma memory_match_token items name pass :
  MemoryState.well_formed items ->
  exists matched,
    MemoryCredentialsCollection.credentials_match name pass items = (Ok matched, items)
    /\ (matched = true <->
        exists user details,
          items !! user = Some details
          /\ details !! "token" = Some (VStr (name +:+ ":" +:+ hash_token256 pass))).
Proof.
  intros Hwf.
  unfold MemoryCredentialsCollection.credentials_match, py_bind, py_read, py_lift, py_ret.
  destruct (tokens_of_Ok (snd <$> map_to_list items)) as (tokens & -> & Hin).
  { apply Forall_forall. intros details [[user d] [-> Hd]]%list_elem_of_fmap.
    apply elem_of_map_to_list in Hd. destruct (Hwf _ _ Hd) as [auth Hauth].
    unfold MemoryCredentialsCollection.stored_auth in Hauth. simpl.
    by destruct (d !! "token"). }
  eexists. split; [done|]. rewrite bool_decide_eq_true, Hin. split.
  - intros (details & [[user d] [-> Hd]]%list_elem_of_fmap & Htoken).
    apply elem_of_map_to_list in Hd. by exists user, d.
  - intros (user & details & Hd & Htoken). exists details. split; [|done].
    apply list_elem_of_fmap. exists (user, details).
    by rewrite elem_of_map_to_list.
Qed.




Lemma missing_token_get details :
  token_missing details ->
  dict_get details "token" = None \/ dict_get details "token" = Some EmptyString.
Proof. unfold dict_get. intros [-> | [-> | ->]]; auto. Qed.

Lemma missing_token_auth fresh details :
  token_missing details ->
  _get_auth fresh (_prep_token (dict_get details "token")) = Ok fresh
  /\ _get_auth fresh (dict_get details "token") = Ok fresh.
Proof. intros [Hget|Hget]%missing_token_get; by rewrite Hget. Qed.

(** C9. A request without a token (no key, [None], or the empty string)
    takes the generated pair, on either collection, for [create] and for
    [update]: the operation never raises [MalformedToken] and changes
    nothing when it raises; whenever it returns, the token of the generated
    pair is what it stored and returned; and it does return when the checks
    that do not depend on the token pass (the request names a user, no
    other user holds the generated username, and the user is new for
    [create], known for [update]). The in-memory collection stores the
    details with that token under the user; the database-backed one hands
    the username and the password of the pair to the model. *)
Theorem missing_token_generates fresh details :
  token_missing details ->
  (forall items, MemoryState.well_formed items ->
     (forall e items',
         MemoryCredentialsCollection.create fresh details items = (Raise e, items') ->
         e <> MalformedToken /\ items' = items)
     /\ (forall created items',
         MemoryCredentialsCollection.create fresh details items = (Ok created, items') ->
         exists user,
           details !! "user" = Some user
           /\ created = <["token" := VStr (auth_str fresh)]> details
           /\ items' = <[user := created]> items)
     /\ (forall user,
         details !! "user" = Some user -> items !! user = None ->
         (forall other held, MemoryState.record_auth items other held ->
            username held = username fresh -> other = user) ->
         MemoryCredentialsCollection.create fresh details items
         = (Ok (<["token" := VStr (auth_str fresh)]> details),
            <[user := <["token" := VStr (auth_str fresh)]> details]> items)))
  /\ (forall user items, MemoryState.well_formed items ->
     (forall e items',
         MemoryCredentialsCollection.update fresh user details items = (Raise e, items') ->
         e <> MalformedToken /\ items' = items)
     /\ (forall updated items',
         MemoryCredentialsCollection.update fresh user details items = (Ok updated, items') ->
         updated = <["token" := VStr (auth_str fresh)]> details
         /\ items' = <[user := updated]> items)
     /\ (is_Some (items !! user) ->
         (forall other held, MemoryState.record_auth items other held ->
            username held = username fresh -> other = user) ->
         MemoryCredentialsCollection.update fresh user details items
         = (Ok (<["token" := VStr (auth_str fresh)]> details),
            <[user := <["token" := VStr (auth_str fresh)]> details]> items)))
  /\ (forall DB (model : Model DB) (db : DB),
     (forall e db',
         DataBaseCredentialsCollection.create fresh details db = (Raise e, db') ->
         e <> MalformedToken /\ db' = db)
     /\ (forall created db',
         DataBaseCredentialsCollection.create fresh details db = (Ok created, db') ->
         details !! "user" = Some created.1
         /\ created.2 = {[ "user" := created.1; "token" := VStr (auth_str fresh) ]}
         /\ db' = add_credentials created.1 (username fresh) (password fresh) db)
     /\ (forall user,
         details !! "user" = Some user -> is_known_user user db = false ->
         (forall held, get_credentials_username (username fresh) db = Some held ->
            cred_user held = user) ->
         DataBaseCredentialsCollection.create fresh details db
         = (Ok (user, {[ "user" := user; "token" := VStr (auth_str fresh) ]}),
            add_credentials user (username fresh) (password fresh) db)))
  /\ (forall DB (model : Model DB) user (db : DB),
     (forall e db',
         DataBaseCredentialsCollection.update fresh user details db = (Raise e, db') ->
         e <> MalformedToken /\ db' = db)
     /\ (forall updated db',
         DataBaseCredentialsCollection.update fresh user details db = (Ok updated, db') ->
         updated = {[ "user" := user; "token" := VStr (auth_str fresh) ]}
         /\ db' = update_credentials user (username fresh) (password fresh) db)
     /\ (is_known_user user db = true ->
         (forall held, get_credentials_username (username fresh) db = Some held ->
            cred_user held = user) ->
         DataBaseCredentialsCollection.update fresh user details db
         = (Ok {[ "user" := user; "token" := VStr (auth_str fresh) ]},
            update_credentials user (username fresh) (password fresh) db))).
Proof.
  intros [Hprep Hraw]%(missing_token_auth fresh).
  assert (forall DB (model : Model DB) user (db : DB),
            (forall held, get_credentials_username (username fresh) db = Some held ->
               cred_user held = user) ->
            username_free user (username fresh) db = true) as Hfree_db.
  { intros DB model user db Hfree. unfold username_free.
    destruct (get_credentials_username _ _) as [held|]; [|done].
    apply bool_decide_eq_true_2. by apply Hfree. }
  split; [|split; [|split]].
  - intros items Hwf. rewrite MemoryFacts.memory_create_unfold, Hprep.
    destruct (details !! "user") as [user|];
      [|split; [by intros e items' [= <- <-]|split; [done|by intros user [=]]]].
    destruct (MemoryFacts.check_duplicated_cases items user (username fresh) Hwf)
      as [[-> _]|[-> (other & held & Hheld & Hname & Hne)]]; simpl.
    + destruct (items !! user) eqn:Hitems.
      * split; [by intros e items' [= <- <-]|]. split; [done|].
        intros ? [= <-] Hnone. congruence.
      * split; [done|]. split.
        -- intros created items' [= <- <-]. by exists user.
        -- by intros ? [= <-] _ _.
    + split; [by intros e items' [= <- <-]|]. split; [done|].
      intros ? [= <-] _ Hfree. by destruct Hne; apply (Hfree other held).
  - intros user items Hwf. rewrite MemoryFacts.memory_update_unfold, Hprep.
    destruct (MemoryFacts.check_duplicated_cases items user (username fresh) Hwf)
      as [[-> _]|[-> (other & held & Hheld & Hname & Hne)]]; simpl.
    + destruct (items !! user) eqn:Hitems.
      * split; [done|]. split; [by intros updated items' [= <- <-]|done].
      * split; [by intros e items' [= <- <-]|]. split; [done|].
        by intros [? ?].
    + split; [by intros e items' [= <- <-]|]. split; [done|].
      intros _ Hfree. by destruct Hne; apply (Hfree other held).
  - intros DB model db. rewrite DataBaseFacts.database_create_unfold, Hraw.
    destruct (details !! "user") as [user|];
      [|split; [by intros e db' [= <- <-]|split; [done|by intros user [=]]]].
    destruct (is_known_user user db) eqn:Hknown.
    { split; [by intros e db' [= <- <-]|]. split; [done|].
      intros ? [= <-] ?. congruence. }
    destruct (username_free user (username fresh) db) eqn:Hfree.
    + split; [done|]. split; [by intros created db' [= <- <-]|].
      by intros ? [= <-] _ _.
    + split; [by intros e db' [= <- <-]|]. split; [done|].
      intros ? [= <-] _ Hheld. apply Hfree_db in Hheld. congruence.
  - intros DB model user db. rewrite DataBaseFacts.database_update_unfold, Hraw.
    destruct (is_known_user user db) eqn:Hknown;
      [|split; [by intros e db' [= <- <-]|split; [done|by intros ?]]].
    destruct (username_free user (username fresh) db) eqn:Hfree.
    + split; [done|]. split; [by intros updated db' [= <- <-]|done].
    + split; [by intros e db' [= <- <-]|]. split; [done|].
      intros _ Hheld. apply Hfree_db in Hheld. congruence.
Qed.

(** C7, as the code has it. [update] for a user without a record never
    changes the store. The database-backed collection raises
    [ResourceNotFound], whatever the details. The in-memory collection reads
    the token and checks its username first: it raises [ResourceNotFound]
    when the token gives credentials whose username no other user holds, and
    [InvalidResourceDetails] when another user holds it. In both
    collections (the database-backed one over the table model) [delete] of a
    user with a record succeeds, a second [delete] right after it raises
    [ResourceNotFound], and so does any [delete] of a user without a
    record. *)
Theorem update_absent_and_delete_twice :
  (forall DB (model : Model DB) fresh user details (db : DB),
      is_known_user user db = false ->
      DataBaseCredentialsCollection.update fresh user details db
        = (Raise (ResourceNotFound user), db))
  /\ (forall fresh user details items,
      MemoryState.well_formed items -> items !! user = None ->
      (exists e, MemoryCredentialsCollection.update fresh user details items
                 = (Raise e, items))
      /\ forall auth,
           _get_auth fresh (_prep_token (dict_get details "token")) = Ok auth ->
           ((forall other held, MemoryState.record_auth items other held ->
                username held = username auth -> other = user) ->
            MemoryCredentialsCollection.update fresh user details items
              = (Raise (ResourceNotFound user), items))
           /\ (forall other held, MemoryState.record_auth items other held ->
                 username held = username auth -> other <> user ->
               MemoryCredentialsCollection.update fresh user details items
                 = (Raise taken, items)))
  /\ (forall (table : TableModel.Table) user,
      (is_Some (TableModel.credentials table !! user) ->
       exists table',
         DataBaseCredentialsCollection.delete user table = (Ok tt, table')
         /\ DataBaseCredentialsCollection.delete user table'
            = (Raise (ResourceNotFound user), table'))
      /\ (TableModel.credentials table !! user = None ->
          DataBaseCredentialsCollection.delete user table
            = (Raise (ResourceNotFound user), table)))
  /\ (forall (items : gmap value Details) user,
      (is_Some (items !! user) ->
       exists items',
         MemoryCredentialsCollection.delete user items = (Ok tt, items')
         /\ MemoryCredentialsCollection.delete user items'
            = (Raise (ResourceNotFound user), items'))
      /\ (items !! user = None ->
          MemoryCredentialsCollection.delete user items
            = (Raise (ResourceNotFound user), items))).
Proof.
  split; [|split; [|split]].
  - intros * Hknown. by rewrite DataBaseFacts.database_update_unfold, Hknown.
  - intros fresh user details items Hwf Habsent.
    rewrite MemoryFacts.memory_update_unfold, Habsent. split.
    + destruct (_get_auth _ _) as [auth|e]; [|by eexists].
      destruct (MemoryCredentialsCollection._check_duplicated_username _ _ _).1;
        by eexists.
    + intros auth ->.
      destruct (MemoryFacts.check_duplicated_cases items user (username auth) Hwf)
        as [[-> Hfree]|[-> (other & held & Hheld & Hname & Hne)]]; simpl.
      * split; [done|]. intros other held Hheld Hname Hne.
        by destruct Hne; apply (Hfree other held).
      * split; [|done]. intros Hfree. by destruct Hne; apply (Hfree other held).
  - intros table user. rewrite !DataBaseFacts.database_delete_unfold. simpl. split.
    + intros Hrow. eexists. rewrite (bool_decide_eq_true_2 _ Hrow). split; [done|].
      rewrite DataBaseFacts.database_delete_unfold. simpl.
      rewrite bool_decide_eq_false_2; [done|].
      rewrite lookup_delete_eq. by intros [? ?].
    + intros Hrow. rewrite bool_decide_eq_false_2; [done|].
      rewrite Hrow. by intros [? ?].
  - intros items user. rewrite MemoryFacts.memory_delete_unfold. split.
    + intros [details ->]. eexists. split; [done|].
      by rewrite MemoryFacts.memory_delete_unfold, lookup_delete_eq.
    + by intros ->.
Qed.

End Collections.

(** ** Concurrent calls of the in-memory collection *)

Module SchedulerFacts.
Section Facts.
Context {hash : HashFunction}.
Import Scheduler.

Lemma initial_disciplined calls items0 : disciplined calls (initial calls items0).
Proof.
  assert (forall i t, (start <$> calls) !! i = Some t -> holding t = false) as Hfree.
  { intros i t. rewrite list_lookup_fmap. destruct (calls !! i) as [c|]; [|done].
    intros [= <-]. unfold start. by destruct (locking c). }
  split; [|split; [|split]]; simpl.
  - apply length_fmap.
  - intros i c t Hc. rewrite list_lookup_fmap, Hc. intros [= <-].
    unfold start. destruct (locking c) eqn:E; simpl; congruence.
  - intros i j ti tj Hi _ Hti. apply Hfree in Hi. congruence.
  - split; [done|]. intros (i & t & Hi & Ht). apply Hfree in Hi. congruence.
Qed.

(** Task [i] moves from [t] to [t'] and the lock follows: it is taken by a
    task that starts to hold it, freed by one that stops, and untouched
    otherwise. *)
Lemma replace_disciplined calls st i t t' items' lock' :
  disciplined calls st -> tasks st !! i = Some t ->
  (forall c, calls !! i = Some c -> task_of c t') ->
  (holding t' = holding t /\ lock' = locked st)
  \/ (holding t = true /\ holding t' = false /\ lock' = false)
  \/ (holding t = false /\ holding t' = true /\ locked st = false /\ lock' = true) ->
  disciplined calls (mkCollection items' lock' (<[i := t']> (tasks st))).
Proof.
  intros (Hlen & Htasks & Hone & Hlock) Hi Hof Hcase.
  pose proof (lookup_lt_Some _ _ _ Hi) as Hlt.
  assert (forall j tj, <[i := t']> (tasks st) !! j = Some tj ->
            (j = i /\ tj = t') \/ (j <> i /\ tasks st !! j = Some tj)) as Hlook.
  { intros j tj. destruct (decide (j = i)) as [->|Hne].
    - rewrite list_lookup_insert_eq by done. intros [= <-]. by left.
    - rewrite list_lookup_insert_ne by done. by right. }
  split; [|split; [|split]]; simpl.
  - by rewrite length_insert.
  - intros j c tj Hc [[-> ->]|[_ Hj]]%Hlook; eauto.
  - intros j k tj tk [[-> ->]|[Hj Htj]]%Hlook [[-> ->]|[Hk Htk]]%Hlook Hhj Hhk;
      [done| | |by eauto].
    + destruct Hcase as [[E _]|[(_ & E & _)|(_ & _ & Hfree & _)]]; [|congruence|].
      * rewrite E in Hhj. symmetry. by apply (Hone k i tk t).
      * assert (locked st = true) by (apply Hlock; eauto). congruence.
    + destruct Hcase as [[E _]|[(_ & E & _)|(_ & _ & Hfree & _)]]; [|congruence|].
      * rewrite E in Hhk. by apply (Hone j i tj t).
      * assert (locked st = true) by (apply Hlock; eauto). congruence.
  - split.
    + intros ->. destruct Hcase as [[E Hl]|[(_ & _ & [=])|(_ & E & _ & _)]].
      * symmetry in Hl. apply Hlock in Hl as (j & tj & Hj & Hhj).
        destruct (decide (j = i)) as [->|Hne].
        -- exists i, t'. rewrite list_lookup_insert_eq by done. split; [done|].
           congruence.
        -- exists j, tj. by rewrite list_lookup_insert_ne.
      * exists i, t'. by rewrite list_lookup_insert_eq.
    + intros (j & tj & [[-> ->]|[Hne Hj]]%Hlook & Hhj).
      * destruct Hcase as [[E ->]|[(_ & E & _)|(_ & _ & _ & ->)]];
          [|congruence|done].
        apply Hlock. exists i, t. split; [done|congruence].
      * destruct Hcase as [[_ ->]|[(Ht & _ & _)|(_ & _ & Hfree & _)]].
        -- apply Hlock; eauto.
        -- by destruct Hne; apply (Hone j i tj t).
        -- assert (locked st = true) by (apply Hlock; eauto). congruence.
Qed.

Lemma step_disciplined calls st i st' :
  disciplined calls st -> step i st = Some st' -> disciplined calls st'.
Proof.
  intros Hinv. unfold step.
  destruct (tasks st !! i) as [[rest|holds [r|A code rest]|outcome]|] eqn:Hi;
    try discriminate.
  - destruct (locked st) eqn:Hlock; [discriminate|]. intros [= <-].
    apply (replace_disciplined calls st i _ _ _ _ Hinv Hi).
    + intros c Hc. pose proof (proj1 (proj2 Hinv) i c _ Hc Hi) as Hof.
      simpl in *. congruence.
    + right. right. by simpl.
  - intros [= <-].
    apply (replace_disciplined calls st i _ _ _ _ Hinv Hi); [done|].
    destruct holds; simpl; auto.
  - destruct (code (items st)) as [[a|e] items']; intros [= <-].
    + apply (replace_disciplined calls st i _ _ _ _ Hinv Hi); [|by left].
      intros c Hc. by apply (proj1 (proj2 Hinv) i c _ Hc Hi).
    + apply (replace_disciplined calls st i _ _ _ _ Hinv Hi); [done|].
      destruct holds; simpl; auto.
Qed.

Lemma run_disciplined calls schedule st st' :
  disciplined calls st -> run schedule st = Some st' -> disciplined calls st'.
Proof.
  revert st. induction schedule as [|i schedule IH]; simpl; intros st Hinv.
  - by intros [= <-].
  - destruct (step i st) as [st1|] eqn:Hstep; [|done].
    apply IH. by eapply step_disciplined.
Qed.

Lemma serial_snoc calls order i c items0 :
  calls !! i = Some c ->
  serial calls (order ++ [i])%list items0
  = (((serial calls order items0).1
        ++ [(i, (alone c (serial calls order items0).2).1)])%list,
     (alone c (serial calls order items0).2).2).
Proof.
  intros Hc. revert items0.
  induction order as [|j order IH]; intros items0; simpl.
  - by rewrite Hc.
  - destruct (calls !! j) as [cj|]; simpl; by rewrite IH.
Qed.

Lemma body_reader c : locking c = false -> reader (body c).
Proof. by destruct c. Qed.

(** A coroutine that is not interrupted is the method it was cut from. *)
Lemma complete_body c items : complete (body c) items = alone c items.
Proof.
  destruct c; try reflexivity; simpl; unfold returning;
    unfold MemoryCredentialsCollection.create, MemoryCredentialsCollection.update,
      MemoryCredentialsCollection.delete, MemoryCredentialsCollection.get,
      MemoryCredentialsCollection.get_all, py_bind, py_ret;
    repeat match goal with
           | |- context [match ?run ?items with _ => _ end] =>
               destruct (run items) as [[?|?] ?]; simpl
           end; reflexivity.
Qed.

Lemma replaced (l : list task) i t t' :
  l !! i = Some t ->
  (forall j tj, <[i := t']> l !! j = Some tj ->
     (j = i /\ tj = t') \/ (j <> i /\ l !! j = Some tj))
  /\ (forall j tj, j <> i -> l !! j = Some tj -> <[i := t']> l !! j = Some tj)
  /\ <[i := t']> l !! i = Some t'.
Proof.
  intros Hi. pose proof (lookup_lt_Some _ _ _ Hi) as Hlt.
  split; [|split].
  - intros j tj. destruct (decide (j = i)) as [->|Hne].
    + rewrite list_lookup_insert_eq by done. intros [= <-]. by left.
    + rewrite list_lookup_insert_ne by done. by right.
  - intros j tj Hne. by rewrite list_lookup_insert_ne.
  - by apply list_lookup_insert_eq.
Qed.

Lemma initial_serialized calls items0 :
  serialized calls items0 (initial calls items0) [].
Proof.
  assert (forall j t, tasks (initial calls items0) !! j = Some t ->
            exists c, calls !! j = Some c /\ t = start c) as Hstart.
  { intros j t. simpl. rewrite list_lookup_fmap.
    destruct (calls !! j) as [c|]; [|done]. intros [= <-]. by exists c. }
  split.
  - constructor.
  - intros j. split; [by intros ?%elem_of_nil|].
    intros (c & r & _ & _ & (c' & _ & Ht)%Hstart).
    unfold start in Ht. by destruct (locking c').
  - by intros j r ?%elem_of_nil.
  - done.
  - intros h rest c (c' & _ & Ht)%Hstart _.
    unfold start in Ht. by destruct (locking c').
  - intros j c rest Hc (c' & Hc' & Ht)%Hstart.
    assert (c' = c) as -> by congruence.
    unfold start in Ht. destruct (locking c); congruence.
  - intros j rest (c & _ & Ht)%Hstart. unfold start in Ht.
    destruct (locking c) eqn:E; [done|]. injection Ht as ->.
    by apply body_reader.
Qed.

(** A waiting task takes the free lock. *)
Lemma acquire_serialized calls items0 st i rest order :
  disciplined calls st -> serialized calls items0 st order ->
  tasks st !! i = Some (Waiting rest) -> locked st = false ->
  serialized calls items0
    (mkCollection (items st) true (<[i := Running true rest]> (tasks st))) order.
Proof.
  intros (Hlen & Hof & Hone & Hlock) [] Hi Hfree.
  destruct (replaced _ _ _ (Running true rest) Hi) as (Hlook & Hkeep & Hnew).
  split; simpl.
  - done.
  - intros j. rewrite ser_order0. split.
    + intros (c & r & Hc & Hl & Hj). exists c, r. split; [done|]. split; [done|].
      apply Hkeep; congruence.
    + intros (c & r & Hc & Hl & [[_ [=]]|[_ Hj]]%Hlook). eauto.
  - intros j r Hj. apply ser_outcomes0 in Hj. apply Hkeep; congruence.
  - done.
  - intros h rest' c [[-> [= <-]]|[_ Hh]]%Hlook Hc.
    + rewrite (ser_waiting0 _ _ _ Hc Hi), complete_body. by rewrite ser_idle0.
    + assert (locked st = true) by (apply Hlock; eauto). congruence.
  - intros j c rest' Hc [[_ [=]]|[_ Hj]]%Hlook. eauto.
  - intros j rest' [[_ [=]]|[_ Hj]]%Hlook. eauto.
Qed.

(** A task without the lock moves on; it reads only. *)
Lemma reader_serialized calls items0 st i rest t' order :
  disciplined calls st -> serialized calls items0 st order ->
  tasks st !! i = Some (Running false rest) ->
  (exists rest', t' = Running false rest' /\ reader rest')
  \/ (exists r, t' = Done r) ->
  serialized calls items0
    (mkCollection (items st) (locked st) (<[i := t']> (tasks st))) order.
Proof.
  intros (Hlen & Hof & Hone & Hlock) [] Hi Ht'.
  destruct (replaced _ _ _ t' Hi) as (Hlook & Hkeep & Hnew).
  split; simpl.
  - done.
  - intros j. rewrite ser_order0. split.
    + intros (c & r & Hc & Hl & Hj). exists c, r. split; [done|]. split; [done|].
      apply Hkeep; congruence.
    + intros (c & r & Hc & Hl & [[-> _]|[_ Hj]]%Hlook); [|by eauto].
      specialize (Hof _ _ _ Hc Hi). simpl in Hof. congruence.
  - intros j r Hj. apply ser_outcomes0 in Hj. apply Hkeep; congruence.
  - done.
  - intros h rest' c [[-> E]|[_ Hh]]%Hlook Hc; [|by eauto].
    destruct Ht' as [(? & -> & _)|(? & ->)]; discriminate.
  - intros j c rest' Hc [[-> E]|[_ Hj]]%Hlook; [|by eauto].
    destruct Ht' as [(? & -> & _)|(? & ->)]; discriminate.
  - intros j rest' [[-> E]|[_ Hj]]%Hlook; [|by eauto].
    destruct Ht' as [(? & -> & ?)|(? & ->)]; [|discriminate].
    by injection E as ->.
Qed.

(** The task that holds the lock runs to its next [await]. *)
Lemma holder_serialized calls items0 st i rest rest' items' order :
  disciplined calls st -> serialized calls items0 st order ->
  tasks st !! i = Some (Running true rest) ->
  complete rest' items' = complete rest (items st) ->
  serialized calls items0
    (mkCollection items' (locked st) (<[i := Running true rest']> (tasks st))) order.
Proof.
  intros (Hlen & Hof & Hone & Hlock) [] Hi Hsame.
  destruct (replaced _ _ _ (Running true rest') Hi) as (Hlook & Hkeep & Hnew).
  assert (locked st = true) as Hheld by (apply Hlock; eauto).
  split; simpl.
  - done.
  - intros j. rewrite ser_order0. split.
    + intros (c & r & Hc & Hl & Hj). exists c, r. split; [done|]. split; [done|].
      apply Hkeep; congruence.
    + intros (c & r & Hc & Hl & [[_ [=]]|[_ Hj]]%Hlook). eauto.
  - intros j r Hj. apply ser_outcomes0 in Hj. apply Hkeep; congruence.
  - congruence.
  - intros h rest0 c [[-> [= <-]]|[Hne Hh]]%Hlook Hc.
    + rewrite Hsame. by apply (ser_holder0 i).
    + by destruct Hne; apply (Hone h i _ _ Hh Hi).
  - intros j c rest0 Hc [[_ [=]]|[_ Hj]]%Hlook. eauto.
  - intros j rest0 [[_ [=]]|[_ Hj]]%Hlook. eauto.
Qed.

(** The task that holds the lock ends, by returning or by raising: it
    joins the order, after the calls that ended before it. *)
Lemma finish_serialized calls items0 st i rest r items' order :
  disciplined calls st -> serialized calls items0 st order ->
  tasks st !! i = Some (Running true rest) ->
  complete rest (items st) = (r, items') ->
  serialized calls items0
    (mkCollection items' false (<[i := Done r]> (tasks st))) (order ++ [i])%list.
Proof.
  intros (Hlen & Hof & Hone & Hlock) [] Hi Hend.
  destruct (replaced _ _ _ (Done r) Hi) as (Hlook & Hkeep & Hnew).
  pose proof (lookup_lt_Some _ _ _ Hi) as Hlt.
  destruct (lookup_lt_is_Some_2 calls i) as [c Hc]; [by rewrite <- Hlen|].
  pose proof (Hof _ _ _ Hc Hi) as Hl. simpl in Hl. symmetry in Hl.
  pose proof (ser_holder0 _ _ _ Hi Hc) as Hbody. rewrite Hend in Hbody.
  assert (i ∉ order) as Hfresh.
  { intros (c' & r' & _ & _ & Hdone)%ser_order0. congruence. }
  split; rewrite ?(serial_snoc calls order i c items0 Hc), <- ?Hbody; simpl.
  - apply NoDup_app. split; [done|]. split; [|apply NoDup_singleton].
    intros j Hj ->%list_elem_of_singleton. done.
  - intros j. rewrite elem_of_app, list_elem_of_singleton, ser_order0. split.
    + intros [(c' & r' & Hc' & Hl' & Hj)| ->].
      * exists c', r'. split; [done|]. split; [done|]. apply Hkeep; congruence.
      * by exists c, r.
    + intros (c' & r' & Hc' & Hl' & [[-> _]|[_ Hj]]%Hlook); [by right|].
      left. eauto.
  - intros j r' [Hj|[= -> ->]%list_elem_of_singleton]%elem_of_app; [|done].
    apply ser_outcomes0 in Hj. apply Hkeep; congruence.
  - done.
  - intros h rest0 c' [[_ [=]]|[Hne Hh]]%Hlook _.
    by destruct Hne; apply (Hone h i _ _ Hh Hi).
  - intros j c' rest0 Hc' [[_ [=]]|[_ Hj]]%Hlook. eauto.
  - intros j rest0 [[_ [=]]|[_ Hj]]%Hlook. eauto.
Qed.

Lemma step_serialized calls items0 st i st' order :
  disciplined calls st -> serialized calls items0 st order ->
  step i st = Some st' ->
  exists order', serialized calls items0 st' order'.
Proof.
  intros Hinv Hser. unfold step.
  destruct (tasks st !! i) as [[rest|holds [r|A code rest]|outcome]|] eqn:Hi;
    try discriminate.
  - destruct (locked st) eqn:Hlock; [discriminate|]. intros [= <-].
    exists order. by apply acquire_serialized.
  - intros [= <-]. destruct holds; simpl.
    + eexists. by eapply finish_serialized.
    + exists order. eapply reader_serialized; eauto.
  - destruct holds.
    + destruct (code (items st)) as [[a|e] items'] eqn:Hcode; intros [= <-]; simpl.
      * exists order. eapply holder_serialized; eauto. simpl. by rewrite Hcode.
      * eexists. eapply finish_serialized; eauto. simpl. by rewrite Hcode.
    + destruct (ser_reader _ _ _ _ Hser _ _ Hi) as [Hpure Hrest].
      specialize (Hpure (items st)).
      destruct (code (items st)) as [[a|e] items']; simpl in Hpure; subst items';
        intros [= <-]; simpl; exists order; eapply reader_serialized; eauto.
      left. exists (rest a). split; [done|apply Hrest].
Qed.

Lemma run_serialized calls items0 schedule st st' order :
  disciplined calls st -> serialized calls items0 st order ->
  run schedule st = Some st' ->
  exists order', serialized calls items0 st' order'.
Proof.
  revert st order.
  induction schedule as [|i schedule IH]; simpl; intros st order Hinv Hser.
  - intros [= <-]. by exists order.
  - destruct (step i st) as [st1|] eqn:Hstep; [|done].
    destruct (step_serialized _ _ _ _ _ _ Hinv Hser Hstep) as [order1 Hser1].
    apply (IH st1 order1); [|done]. by eapply step_disciplined.
Qed.

End Facts.
End SchedulerFacts.

Section Locking.
Context {hash : HashFunction}.
Import Scheduler SchedulerFacts.

(** C8, as the code has it. However the event loop interleaves the calls
    of the in-memory collection: a call of [create], [get], [update],
    [delete] or [credentials_match] runs only while it holds the lock; at
    most one call holds it; the lock is held exactly while some call is
    between its entry and its exit, so it is released when the call returns
    and when it raises; and whenever the lock is free, the store and the
    outcomes of the calls that ended are those of running these calls one
    at a time, in the order they ended. A call of [api_credentials_match]
    never waits for the lock and never holds it. *)
Theorem locking_calls_serialized calls items0 schedule st :
  run schedule (initial calls items0) = Some st ->
  (forall i c t, calls !! i = Some c -> locking c = true ->
     tasks st !! i = Some t ->
     match t with Running holds _ => holds = true | _ => True end)
  /\ (forall i name pass t,
       calls !! i = Some (CallApiCredentialsMatch name pass) ->
       tasks st !! i = Some t ->
       match t with
       | Waiting _ => False
       | Running holds _ => holds = false
       | Done _ => True
       end)
  /\ (forall i j ti tj,
       tasks st !! i = Some ti -> tasks st !! j = Some tj ->
       holding ti = true -> holding tj = true -> i = j)
  /\ (locked st = true <-> exists i t, tasks st !! i = Some t /\ holding t = true)
  /\ exists order,
       NoDup order
       /\ (forall j, j ∈ order <->
             exists c r, calls !! j = Some c /\ locking c = true
                         /\ tasks st !! j = Some (Done r))
       /\ (forall j r, (j, r) ∈ (serial calls order items0).1 ->
             tasks st !! j = Some (Done r))
       /\ (locked st = false -> items st = (serial calls order items0).2).
Proof.
  intros Hrun.
  pose proof (run_disciplined calls _ _ _ (initial_disciplined calls items0) Hrun)
    as Hinv.
  destruct (run_serialized calls items0 _ _ _ _
              (initial_disciplined calls items0)
              (initial_serialized calls items0) Hrun) as [order Hser].
  destruct Hinv as (Hlen & Hof & Hone & Hlock).
  split; [|split; [|split; [|split]]]; try done.
  - intros i c t Hc Hl Ht. specialize (Hof _ _ _ Hc Ht).
    destruct t; simpl in *; (done || congruence).
  - intros i name pass t Hc Ht. specialize (Hof _ _ _ Hc Ht).
    destruct t; simpl in *; (done || congruence).
  - exists order. destruct Hser. auto.
Qed.

End Locking.

(** ** The SHA-256 digest as a token component *)

Module Sha256Facts.
Import Sha256 PyStr.

Lemma hex_digit_not_colon d : Ascii.eqb (hex_digit d) colon = false.
Proof.
  unfold hex_digit.
  destruct (nth_in_or_default (Z.to_nat (Z.land d 15)) hex_digits "0"%char)
    as [Hin| ->]; [|reflexivity].
  revert Hin. generalize (nth (Z.to_nat (Z.land d 15)) hex_digits "0"%char).
  intros a Hin. simpl in Hin.
  repeat (destruct Hin as [<-|Hin]; [reflexivity|]). destruct Hin.
Qed.

Lemma hex8_without_colon word tail :
  contains colon (hex8 word tail) = contains colon tail.
Proof. unfold hex8. cbn [contains]. by rewrite !hex_digit_not_colon. Qed.

Lemma round_length state kw : length (round state kw) = length state.
Proof.
  unfold round.
  by destruct state as [|a [|b [|c [|d [|e [|f [|g [|h [|? ?]]]]]]]]].
Qed.

Lemma rounds_length kws state :
  length (fold_left round kws state) = length state.
Proof.
  revert state. induction kws as [|kw kws IH]; intros state; simpl; [done|].
  by rewrite IH, round_length.
Qed.

Lemma compress_length state block : length (compress state block) = length state.
Proof.
  unfold compress. rewrite length_map, length_combine, rounds_length. lia.
Qed.

Lemma digest_length s : length (digest s) = 8%nat.
Proof.
  unfold digest.
  generalize (blocks_of (length (words_of (length (pad (bytes_of s)))
                                          (pad (bytes_of s))))
                        (words_of (length (pad (bytes_of s))) (pad (bytes_of s)))).
  intros blocks.
  enough (forall state, length (fold_left compress blocks state) = length state)
    as H by by rewrite H.
  induction blocks as [|block blocks IH]; intros state; simpl; [done|].
  by rewrite IH, compress_length.
Qed.

(** The digest can stand as the second component of a token. *)
Lemma sha256_component s :
  sha256 s <> EmptyString /\ contains colon (sha256 s) = false.
Proof.
  unfold sha256, hexdigest. split.
  - pose proof (digest_length s) as Hlen.
    destruct (digest s) as [|word words]; [discriminate|].
    cbn [fold_right]. unfold hex8. discriminate.
  - induction (digest s) as [|word words IH]; cbn [fold_right]; [done|].
    by rewrite hex8_without_colon.
Qed.

End Sha256Facts.

(** ** The token helpers, once more *)

Section MoreTokens.
Context {hash : HashFunction}.
Import PyStr PyStrFacts.

(** X1. [_prep_token] never makes a token absent or empty, and never
    changes the part before the first separator: what [_get_auth] reads as
    the username, and whether it has to generate credentials, is the same
    before and after the preparation. *)
Theorem prep_token_keeps_username token :
  exists prepared,
    _prep_token (Some token) = Some prepared
    /\ (prepared = EmptyString <-> token = EmptyString)
    /\ nth 0 (split colon prepared) EmptyString
       = nth 0 (split colon token) EmptyString.
Proof.
  unfold _prep_token.
  destruct (split colon token) as [|u [|p [|? ?]]] eqn:E;
    try (exists token; by rewrite E).
  destruct (has_empty [u; p]) eqn:Hempty; [exists token; by rewrite E|].
  apply has_empty_two in Hempty as [Hu Hp].
  apply split_two in E as (-> & Cu & Cp).
  eexists. split; [reflexivity|]. cbn [nth join insert list_insert].
  split.
  - destruct u; [done|]. split; discriminate.
  - change (u +:+ ":" +:+ hash_token256 p)
      with (u +:+ String colon (hash_token256 p)).
    by rewrite split_app.
Qed.

End MoreTokens.

(** ** The in-memory collection: checks, errors and what is written *)

Section MemoryErrors.
Context {hash : HashFunction}.
Import PyStr PyStrFacts MemoryCredentialsCollection MemoryState MemoryFacts.

(** X2. In the in-memory collection an operation that raises, whatever the
    error, leaves [self.items] as it was; and [get], [get_all],
    [credentials_match] and [api_credentials_match] leave it as it was
    whether they raise or return. *)
Theorem memory_failure_keeps_items (items : gmap value Details) :
  (forall fresh details e items',
      create fresh details items = (Raise e, items') -> items' = items)
  /\ (forall fresh user details e items',
      update fresh user details items = (Raise e, items') -> items' = items)
  /\ (forall user e items',
      delete user items = (Raise e, items') -> items' = items)
  /\ (forall user, (get user items).2 = items)
  /\ (get_all items).2 = items
  /\ (forall name pass, (credentials_match name pass items).2 = items)
  /\ (forall name pass, (api_credentials_match name pass items).2 = items).
Proof.
  split; [|split; [|split; [|split; [|split; [|split]]]]].
  - intros *. apply create_raise.
  - intros *. apply update_raise.
  - intros user e items'. rewrite memory_delete_unfold.
    destruct (items !! user); congruence.
  - intros user. rewrite memory_get_unfold. by destruct (items !! user).
  - reflexivity.
  - intros name pass. unfold credentials_match, py_bind, py_read, py_lift.
    by destruct (tokens_of _).
  - reflexivity.
Qed.

(** X3. The checks of the in-memory [create], in the order the code makes
    them, on a store whose tokens read back as credentials: a token that
    cannot be read raises first, even when the request names no user; then
    a request without the key [user] raises [KeyError]; then a username held
    by another user raises [InvalidResourceDetails]; then a user that has a
    record raises [ResourceAlreadyExists]; only then is the record stored,
    with its token replaced by the one of the credentials. *)
Theorem memory_create_checks fresh details items :
  well_formed items ->
  (forall e, _get_auth fresh (_prep_token (dict_get details "token")) = Raise e ->
     create fresh details items = (Raise e, items))
  /\ (forall auth,
       _get_auth fresh (_prep_token (dict_get details "token")) = Ok auth ->
       (details !! "user" = None ->
        create fresh details items = (Raise (KeyError "user"), items))
       /\ (forall user, details !! "user" = Some user ->
           ((exists other held, record_auth items other held /\ other <> user
                                /\ username held = username auth) ->
            create fresh details items = (Raise taken, items))
           /\ ((forall other held, record_auth items other held ->
                  username held = username auth -> other = user) ->
               (is_Some (items !! user) ->
                create fresh details items = (Raise (ResourceAlreadyExists user), items))
               /\ (items !! user = None ->
                   create fresh details items
                   = (Ok (<["token" := VStr (auth_str auth)]> details),
                      <[user := <["token" := VStr (auth_str auth)]> details]> items))))).
Proof.
  intros Hwf. rewrite memory_create_unfold. split; [by intros e ->|].
  intros auth ->. split; [by intros ->|]. intros user ->.
  destruct (check_duplicated_cases items user (username auth) Hwf)
    as [[-> Hfree]|[-> (other & held & Hheld & Hname & Hne)]]; simpl.
  - split.
    + intros (other & held & Hheld & Hne & Hname).
      by destruct Hne; apply (Hfree other held).
    + intros _. split; [by intros [d ->]|by intros ->].
  - split; [done|]. intros Hfree. by destruct Hne; apply (Hfree other held).
Qed.

(** X4. On a store reached from the empty collection by any sequence of
    create, update and delete, the stored records never make an operation
    fail: [create] raises nothing but [MalformedToken], [KeyError] for the
    key [user], [InvalidResourceDetails] and [ResourceAlreadyExists];
    [update] nothing but [MalformedToken], [InvalidResourceDetails] and
    [ResourceNotFound]; [delete] and [get] nothing but [ResourceNotFound];
    and [credentials_match] never raises. *)
Theorem memory_errors_classified ops :
  Forall operation_ok ops ->
  (forall fresh details e items',
      create fresh details (run ops ∅) = (Raise e, items') ->
      e = MalformedToken \/ e = KeyError "user" \/ e = taken
      \/ exists user, details !! "user" = Some user /\ e = ResourceAlreadyExists user)
  /\ (forall fresh user details e items',
      update fresh user details (run ops ∅) = (Raise e, items') ->
      e = MalformedToken \/ e = taken \/ e = ResourceNotFound user)
  /\ (forall user e items',
      delete user (run ops ∅) = (Raise e, items') -> e = ResourceNotFound user)
  /\ (forall user e items',
      get user (run ops ∅) = (Raise e, items') -> e = ResourceNotFound user)
  /\ (forall name pass, exists matched,
      credentials_match name pass (run ops ∅) = (Ok matched, run ops ∅)).
Proof.
  intros Hops.
  pose proof (run_consistent ops ∅ Hops empty_consistent) as [Hwf _].
  generalize dependent (run ops ∅). intros items Hwf.
  split; [|split; [|split; [|split]]].
  - intros fresh details e items'. rewrite memory_create_unfold.
    destruct (get_auth_cases fresh (_prep_token (dict_get details "token")))
      as [[auth ->]| ->]; [|intros [= <- _]; auto].
    destruct (details !! "user") as [user|]; [|intros [= <- _]; auto].
    destruct (check_duplicated_cases items user (username auth) Hwf)
      as [[-> _]|[-> _]]; simpl; [|intros [= <- _]; auto].
    destruct (items !! user); [|done]. intros [= <- _]. eauto 6.
  - intros fresh user details e items'. rewrite memory_update_unfold.
    destruct (get_auth_cases fresh (_prep_token (dict_get details "token")))
      as [[auth ->]| ->]; [|intros [= <- _]; auto].
    destruct (check_duplicated_cases items user (username auth) Hwf)
      as [[-> _]|[-> _]]; simpl; [|intros [= <- _]; auto].
    destruct (items !! user); [done|]. intros [= <- _]. auto.
  - intros user e items'. rewrite memory_delete_unfold.
    destruct (items !! user); [done|]. by intros [= <- _].
  - intros user e items'. rewrite memory_get_unfold.
    destruct (items !! user); [done|]. by intros [= <- _].
  - intros name pass.
    destruct (memory_match_token items name pass Hwf) as (matched & -> & _).
    by exists matched.
Qed.

(** X5. Both [_check_duplicated_username] raise exactly when the username
    is held by a record of another user, and return otherwise; neither
    writes. In the in-memory collection this is for a store whose tokens
    read back as credentials; in the database-backed one the record is the
    one the model finds by username. *)
Theorem check_duplicated_username_iff :
  (forall items user name, well_formed items ->
     (_check_duplicated_username user name items = (Raise taken, items)
      <-> exists other auth, record_auth items other auth
                             /\ username auth = name /\ other <> user)
     /\ (_check_duplicated_username user name items = (Ok tt, items)
         <-> forall other auth, record_auth items other auth ->
               username auth = name -> other = user))
  /\ (forall DB (model : Model DB) user name (db : DB),
     (DataBaseCredentialsCollection._check_duplicated_username user name db
        = (Raise taken, db)
      <-> exists held, get_credentials_username name db = Some held
                       /\ cred_user held <> user)
     /\ (DataBaseCredentialsCollection._check_duplicated_username user name db
           = (Ok tt, db)
         <-> forall held, get_credentials_username name db = Some held ->
               cred_user held = user)).
Proof.
  split.
  - intros items user name Hwf.
    destruct (check_duplicated_cases items user name Hwf)
      as [[-> Hfree]|[-> (other & auth & Hheld & Hname & Hne)]].
    + split; split; try done.
      intros (other & auth & Hheld & Hname & Hne).
      by destruct Hne; apply (Hfree other auth).
    + split; split; try done; [by eauto|].
      intros Hfree. by destruct Hne; apply (Hfree other auth).
  - intros DB model user name db.
    rewrite DataBaseFacts.check_duplicated_unfold. unfold username_free.
    destruct (get_credentials_username name db) as [held|].
    + destruct (decide (cred_user held = user)) as [Heq|Hne].
      * rewrite bool_decide_eq_true_2 by done. split; split; try done.
        -- by intros (? & [= <-] & ?).
        -- by intros _ ? [= <-].
      * rewrite bool_decide_eq_false_2 by done. split; split; try done.
        -- by eauto.
        -- intros Hfree. by destruct Hne; apply Hfree.
    + split; split; try done. by intros (? & ? & _).
Qed.

(** X6. [get_all] of the in-memory collection returns the stored records,
    one for each user, and writes nothing; after a [create] that succeeds
    the record it returned is among them, and there is one record more. *)
Theorem get_all_lists_records (items : gmap value Details) :
  (exists records,
      get_all items = (Ok records, items)
      /\ length records = size items
      /\ forall details, details ∈ records <-> exists user, items !! user = Some details)
  /\ (forall fresh details created items',
      create fresh details items = (Ok created, items') ->
      exists records,
        get_all items' = (Ok records, items')
        /\ created ∈ records /\ length records = S (size items)).
Proof.
  assert (forall store : gmap value Details,
            get_all store = (Ok (snd <$> map_to_list store), store)
            /\ length (snd <$> map_to_list store) = size store
            /\ forall details, details ∈ snd <$> map_to_list store
                 <-> exists user, store !! user = Some details) as Hall.
  { intros store. split; [done|]. split.
    - by rewrite length_fmap, length_map_to_list.
    - intros details. rewrite list_elem_of_fmap. split.
      + intros ([user d] & -> & Hin%elem_of_map_to_list). by exists user.
      + intros [user Hd]. exists (user, details). by rewrite elem_of_map_to_list. }
  split.
  - eexists. apply Hall.
  - intros fresh details created items'. rewrite memory_create_unfold.
    destruct (_get_auth _ _) as [auth|]; [|done].
    destruct (details !! "user") as [user|]; [|done].
    destruct (_check_duplicated_username _ _ _).1; [|done].
    destruct (items !! user) eqn:Habsent; [done|]. intros [= <- <-].
    destruct (Hall (<[user := <["token" := VStr (auth_str auth)]> details]> items))
      as (Hget & Hlen & Hin).
    eexists. split; [done|]. split.
    + apply Hin. exists user. by rewrite lookup_insert_eq.
    + by rewrite Hlen, map_size_insert_None.
Qed.

End MemoryErrors.

Section MemoryFrame.
Context {hash : HashFunction}.
Import PyStr PyStrFacts MemoryCredentialsCollection MemoryState MemoryFacts.

(** X7. An operation of the in-memory collection touches the record of
    its user and no other. After a [create] or an [update] that succeeds,
    [get] for the user returns the details of the request with nothing but
    the token replaced; after a [delete] that succeeds, [get] for the user
    raises [ResourceNotFound]; and for every other user [get] answers as it
    did before. An [update] writes under the user it is called for, whatever
    user its details name. *)
Theorem memory_writes_only_own_record (items : gmap value Details) :
  (forall fresh details created items',
      create fresh details items = (Ok created, items') ->
      exists user stored,
        details !! "user" = Some user
        /\ get user items' = (Ok stored, items')
        /\ (forall key, key <> "token" -> stored !! key = details !! key)
        /\ forall other, other <> user -> (get other items').1 = (get other items).1)
  /\ (forall fresh user details updated items',
      update fresh user details items = (Ok updated, items') ->
      exists stored,
        get user items' = (Ok stored, items')
        /\ (forall key, key <> "token" -> stored !! key = details !! key)
        /\ forall other, other <> user -> (get other items').1 = (get other items).1)
  /\ (forall user items',
      delete user items = (Ok tt, items') ->
      get user items' = (Raise (ResourceNotFound user), items')
      /\ forall other, other <> user -> (get other items').1 = (get other items).1).
Proof.
  split; [|split].
  - intros fresh details created items'. rewrite memory_create_unfold.
    destruct (_get_auth _ _) as [auth|]; [|done].
    destruct (details !! "user") as [user|]; [|done].
    destruct (_check_duplicated_username _ _ _).1; [|done].
    destruct (items !! user); [done|]. intros [= <- <-].
    eexists user, _. split; [done|].
    rewrite memory_get_unfold, lookup_insert_eq. split; [done|]. split.
    + intros key Hkey. by rewrite lookup_insert_ne.
    + intros other Hne. rewrite !memory_get_unfold, lookup_insert_ne by done.
      by destruct (items !! other).
  - intros fresh user details updated items'. rewrite memory_update_unfold.
    destruct (_get_auth _ _) as [auth|]; [|done].
    destruct (_check_duplicated_username _ _ _).1; [|done].
    destruct (items !! user); [|done]. intros [= <- <-].
    eexists. rewrite memory_get_unfold, lookup_insert_eq. split; [done|]. split.
    + intros key Hkey. by rewrite lookup_insert_ne.
    + intros other Hne. rewrite !memory_get_unfold, lookup_insert_ne by done.
      by destruct (items !! other).
  - intros user items'. rewrite memory_delete_unfold.
    destruct (items !! user); [|done]. intros [= <-].
    rewrite memory_get_unfold, lookup_delete_eq. split; [done|].
    intros other Hne. rewrite !memory_get_unfold, lookup_delete_ne by done.
    by destruct (items !! other).
Qed.

End MemoryFrame.

(** ** The in-memory collection: how its operations compose *)

Module MemoryWrites.
Section Facts.
Context {hash : HashFunction}.
Import PyStr PyStrFacts MemoryCredentialsCollection MemoryState MemoryFacts.

Lemma stored_auth_Ok details auth :
  stored_auth details = Ok auth <->
  details !! "token" = Some (VStr (auth_str auth)) /\ auth_ok auth.
Proof.
  unfold stored_auth. split.
  - destruct (details !! "token") as [[|token]|]; try discriminate.
    by intros [-> ?]%from_token_Ok.
  - intros [-> Hok]. by apply from_token_str.
Qed.

Lemma record_auth_ok items user auth : record_auth items user auth -> auth_ok auth.
Proof. intros (details & _ & Hauth). by apply stored_auth_Ok in Hauth as [_ ?]. Qed.

Lemma insert_well_formed items user details auth :
  well_formed items -> stored_auth details = Ok auth ->
  well_formed (<[user := details]> items).
Proof.
  intros Hwf Hauth k d. destruct (decide (k = user)) as [->|Hne].
  - rewrite lookup_insert_eq. intros [= <-]. eauto.
  - rewrite lookup_insert_ne by done. apply Hwf.
Qed.

(** The match of a username without [:] is a search for its record. *)
Lemma match_record items name pass :
  well_formed items -> contains colon name = false ->
  exists matched,
    credentials_match name pass items = (Ok matched, items)
    /\ (matched = true <->
        exists user, record_auth items user (mkAuth name (hash_token256 pass))).
Proof.
  intros Hwf Hname.
  destruct (memory_match_token items name pass Hwf) as (matched & Hrun & Hiff).
  exists matched. split; [done|]. rewrite Hiff. split.
  - intros (user & details & Hd & Htoken). exists user, details. split; [done|].
    destruct (Hwf _ _ Hd) as [auth Hauth]. rewrite Hauth.
    apply stored_auth_Ok in Hauth as [E (_ & _ & Cu)].
    rewrite Htoken in E. injection E as E.
    apply (app_sep_inj colon) in E as [Hu Hp]; [|done..].
    destruct auth; simpl in *; congruence.
  - intros (user & details & Hd & [Htoken _]%stored_auth_Ok). eauto.
Qed.

Lemma match_decided items name pass (P : Prop) `{!Decision P} :
  well_formed items -> contains colon name = false ->
  ((exists user, record_auth items user (mkAuth name (hash_token256 pass))) <-> P) ->
  credentials_match name pass items = (Ok (bool_decide P), items).
Proof.
  intros Hwf Hname HP.
  destruct (match_record items name pass Hwf Hname) as (matched & -> & Hiff).
  do 2 f_equal. rewrite HP in Hiff. destruct matched.
  - symmetry. apply bool_decide_eq_true_2. by apply Hiff.
  - symmetry. apply bool_decide_eq_false_2. intros HP'%Hiff. discriminate.
Qed.

(** What a [create] that returns has checked and written. *)
Lemma create_Ok fresh details items created items' :
  well_formed items ->
  create fresh details items = (Ok created, items') ->
  exists user auth,
    _get_auth fresh (_prep_token (dict_get details "token")) = Ok auth
    /\ details !! "user" = Some user /\ items !! user = None
    /\ (forall other held, record_auth items other held ->
          username held = username auth -> other = user)
    /\ created = <["token" := VStr (auth_str auth)]> details
    /\ items' = <[user := created]> items.
Proof.
  intros Hwf. rewrite memory_create_unfold.
  destruct (_get_auth _ _) as [auth|e] eqn:Hauth; [|done].
  destruct (details !! "user") as [user|]; [|done].
  destruct (check_duplicated_cases items user (username auth) Hwf)
    as [[-> Hfree]|[-> _]]; [|done].
  simpl. destruct (items !! user) eqn:Huser; [done|].
  intros [= <- <-]. by exists user, auth.
Qed.

Lemma update_Ok fresh user details items updated items' :
  well_formed items ->
  update fresh user details items = (Ok updated, items') ->
  exists auth,
    _get_auth fresh (_prep_token (dict_get details "token")) = Ok auth
    /\ is_Some (items !! user)
    /\ (forall other held, record_auth items other held ->
          username held = username auth -> other = user)
    /\ updated = <["token" := VStr (auth_str auth)]> details
    /\ items' = <[user := updated]> items.
Proof.
  intros Hwf. rewrite memory_update_unfold.
  destruct (_get_auth _ _) as [auth|e] eqn:Hauth; [|done].
  destruct (check_duplicated_cases items user (username auth) Hwf)
    as [[-> Hfree]|[-> _]]; [|done].
  simpl. destruct (items !! user) eqn:Huser; [|done].
  intros [= <- <-]. by exists auth.
Qed.

(** The credentials read from a prepared token of two parts. *)
Lemma prepared_auth fresh details u p auth :
  u <> EmptyString -> p <> EmptyString ->
  contains colon u = false -> contains colon p = false ->
  details !! "token" = Some (VStr (u +:+ ":" +:+ p)) ->
  _get_auth fresh (_prep_token (dict_get details "token")) = Ok auth ->
  auth = mkAuth u (hash_token256 p) /\ auth_ok auth.
Proof.
  intros Hu Hp Cu Cp Htoken. unfold dict_get. rewrite Htoken.
  rewrite (prep_token_colon_free u p Hu Hp Cu Cp).
  destruct u as [|a u]; [done|]. simpl.
  intros [E Hok]%from_token_Ok. split; [|done].
  destruct Hok as (_ & _ & Ca).
  apply (app_sep_inj colon (String a u)) in E as [Hname Hpass]; [|done..].
  destruct auth; simpl in *; congruence.
Qed.

Lemma prepared_auth_Ok fresh details u p :
  u <> EmptyString -> p <> EmptyString ->
  contains colon u = false -> contains colon p = false ->
  hash_token256 p <> EmptyString ->
  details !! "token" = Some (VStr (u +:+ ":" +:+ p)) ->
  _get_auth fresh (_prep_token (dict_get details "token"))
  = Ok (mkAuth u (hash_token256 p)).
Proof.
  intros Hu Hp Cu Cp Hh Htoken. unfold dict_get. rewrite Htoken.
  rewrite (prep_token_colon_free u p Hu Hp Cu Cp).
  by apply get_auth_two_parts.
Qed.

(** After the record of [user] was written with [auth], whose username no
    other user holds, the username matches exactly the passwords whose hash
    is the stored one. *)
Lemma match_after_insert items user details auth q :
  well_formed items -> auth_ok auth ->
  (forall other held, record_auth items other held ->
     username held = username auth -> other = user) ->
  credentials_match (username auth) q
    (<[user := <["token" := VStr (auth_str auth)]> details]> items)
  = (Ok (bool_decide (hash_token256 q = password auth)),
     <[user := <["token" := VStr (auth_str auth)]> details]> items).
Proof.
  intros Hwf Hok Hfree.
  pose proof (stored_auth_token details auth Hok) as Hstored.
  apply match_decided.
  - by eapply insert_well_formed.
  - by destruct Hok as (_ & _ & ?).
  - split.
    + intros (k & [[_ E]|[Hne Hk]]%(record_auth_insert _ _ _ _ _ _ Hstored)).
      * by rewrite <- E.
      * by destruct Hne; apply (Hfree k _ Hk).
    + intros E. exists user. apply (record_auth_insert _ _ _ _ _ _ Hstored).
      left. split; [done|]. destruct auth; simpl in *; congruence.
Qed.

End Facts.
End MemoryWrites.

Section MemoryComposition.
Context {hash : HashFunction}.
Import PyStr PyStrFacts MemoryCredentialsCollection MemoryState MemoryFacts MemoryWrites.

(** X8. A [create] with a token [u:p] of two non-empty parts that succeeds
    makes the username [u] match exactly the passwords that hash like [p]:
    [p] itself matches, and a password with another hash does not. *)
Theorem create_then_credentials_match fresh details items created items' u p :
  well_formed items ->
  u <> EmptyString -> p <> EmptyString ->
  contains colon u = false -> contains colon p = false ->
  details !! "token" = Some (VStr (u +:+ ":" +:+ p)) ->
  create fresh details items = (Ok created, items') ->
  forall q, credentials_match u q items'
            = (Ok (bool_decide (hash_token256 q = hash_token256 p)), items').
Proof.
  intros Hwf Hu Hp Cu Cp Htoken Hcreate q.
  destruct (create_Ok _ _ _ _ _ Hwf Hcreate)
    as (user & auth & Hauth & Huser & Habsent & Hfree & -> & ->).
  destruct (prepared_auth _ _ _ _ _ Hu Hp Cu Cp Htoken Hauth) as [-> Hok].
  by apply (match_after_insert items user details (mkAuth u (hash_token256 p)) q).
Qed.

(** X9. On a store with unique usernames, an [update] of a user with a
    record, with a token [u:p] of two non-empty parts without [:], that
    succeeds makes the username [u] match exactly the passwords that hash
    like [p],
    so a former password of the user stops matching unless it hashes like
    the new one; and when the user had another username before, that
    username matches no password any more. *)
Theorem update_then_credentials_match fresh user details items updated items' old u p :
  consistent items -> record_auth items user old ->
  u <> EmptyString -> p <> EmptyString ->
  contains colon u = false -> contains colon p = false ->
  details !! "token" = Some (VStr (u +:+ ":" +:+ p)) ->
  update fresh user details items = (Ok updated, items') ->
  (forall q, credentials_match u q items'
             = (Ok (bool_decide (hash_token256 q = hash_token256 p)), items'))
  /\ (username old <> u ->
      forall q, credentials_match (username old) q items' = (Ok false, items')).
Proof.
  intros [Hwf Huniq] Hold Hu Hp Cu Cp Htoken Hupdate.
  destruct (update_Ok _ _ _ _ _ _ Hwf Hupdate)
    as (auth & Hauth & Hpresent & Hfree & -> & ->).
  destruct (prepared_auth _ _ _ _ _ Hu Hp Cu Cp Htoken Hauth) as [-> Hok].
  split.
  - intros q. by apply (match_after_insert items user details (mkAuth u (hash_token256 p)) q).
  - intros Hne q.
    pose proof (stored_auth_token details _ Hok) as Hstored.
    rewrite (match_decided _ _ _ False).
    + reflexivity.
    + by eapply insert_well_formed.
    + by destruct (record_auth_ok _ _ _ Hold) as (_ & _ & ?).
    + split; [|done].
      intros (k & [[_ [= E _]]|[Hk Hrec]]%(record_auth_insert _ _ _ _ _ _ Hstored));
        [done|].
      destruct Hk. by apply (Huniq k user _ old Hrec Hold).
Qed.


(** X11. A [delete] of a user with a record succeeds, and from then on the
    username of that record matches no password. *)
Theorem delete_then_no_match user items old :
  consistent items -> record_auth items user old ->
  delete user items = (Ok tt, base.delete user items)
  /\ forall q, credentials_match (username old) q (base.delete user items)
               = (Ok false, base.delete user items).
Proof.
  intros Hcons Hold. pose proof Hcons as [Hwf Huniq].
  rewrite memory_delete_unfold. split.
  - by destruct Hold as (d & -> & _).
  - intros q. rewrite (match_decided _ _ _ False).
    + reflexivity.
    + by apply (delete_consistent items user).
    + by destruct (record_auth_ok _ _ _ Hold) as (_ & _ & ?).
    + split; [|done]. intros (k & d & [Hne Hk]%lookup_delete_Some & Hd).
      destruct Hne. symmetry.
      apply (Huniq k user (mkAuth (username old) (hash_token256 q)) old);
        [by exists d|done..].
Qed.

(** X12. A [delete] frees the username, on a store with unique
    usernames: while the record of [user] holds a username, a [create] for
    another user, who has no record, with a token of that username and a
    non-empty password [p] without [:] whose hash is not empty raises
    [InvalidResourceDetails]; once the record of [user] is deleted, the same
    [create] succeeds, and the record of the other user holds the username
    and the hash of [p]. *)
Theorem delete_frees_username fresh user other details items old p :
  consistent items -> record_auth items user old ->
  other <> user -> items !! other = None ->
  p <> EmptyString -> contains colon p = false ->
  hash_token256 p <> EmptyString ->
  details !! "user" = Some other ->
  details !! "token" = Some (VStr (username old +:+ ":" +:+ p)) ->
  create fresh details items = (Raise taken, items)
  /\ exists created items',
       create fresh details (delete user items).2 = (Ok created, items')
       /\ record_auth items' other (mkAuth (username old) (hash_token256 p)).
Proof.
  intros Hcons Hold Hne Habsent Hp Cp Hh Huser Htoken.
  pose proof Hcons as [Hwf Huniq].
  destruct (record_auth_ok _ _ _ Hold) as (Hu & _ & Cu).
  pose proof (prepared_auth_Ok fresh details _ p Hu Hp Cu Cp Hh Htoken) as Hauth.
  split.
  - by apply (create_taken fresh details items other
                (mkAuth (username old) (hash_token256 p)) user old).
  - rewrite memory_delete_unfold. pose proof Hold as (d0 & Hd0 & _).
    rewrite Hd0. simpl.
    pose proof (delete_consistent items user Hcons) as [Hwf' _].
    rewrite memory_create_unfold, Hauth, Huser. cbn [username].
    destruct (check_duplicated_cases (base.delete user items) other (username old) Hwf')
      as [[-> _]|[_ (k & held & (d & [Hk Hd]%lookup_delete_Some & Hheld) & Hname & _)]];
      simpl.
    + rewrite lookup_delete_ne, Habsent by done. eexists _, _. split; [done|].
      eexists. rewrite lookup_insert_eq. split; [done|].
      apply stored_auth_token. by repeat split.
    + destruct Hk. symmetry. apply (Huniq k user held old); [by exists d|done..].
Qed.

End MemoryComposition.

(** ** The database-backed collection, once more *)

Section DataBaseMore.
Context {hash : HashFunction} {DB : Type} {model : Model DB}.
Import PyStr PyStrFacts DataBaseCredentialsCollection DataBaseFacts.


(** X14. The database-backed collection never hashes: when a request
    carries a non-empty token and [create] or [update] succeeds, the token
    returned is the token submitted, and the model was handed its two
    components, the part before the first [:] and the password after it, as
    they came. *)
Theorem database_returns_submitted_token fresh details token (db : DB) :
  dict_get details "token" = Some token -> token <> EmptyString ->
  (forall created db',
      create fresh details db = (Ok created, db') ->
      details !! "user" = Some created.1
      /\ created.2 = {[ "user" := created.1; "token" := VStr token ]}
      /\ exists u p, token = u +:+ ":" +:+ p /\ contains colon u = false
                     /\ db' = add_credentials created.1 u p db)
  /\ (forall user updated db',
      update fresh user details db = (Ok updated, db') ->
      updated = {[ "user" := user; "token" := VStr token ]}
      /\ exists u p, token = u +:+ ":" +:+ p /\ contains colon u = false
                     /\ db' = update_credentials user u p db).
Proof.
  intros Hget Htoken.
  assert (forall auth, _get_auth fresh (Some token) = Ok auth ->
            token = auth_str auth /\ contains colon (username auth) = false) as Hauth.
  { destruct token as [|a t]; [done|]. simpl.
    by intros auth [-> (_ & _ & ?)]%from_token_Ok. }
  split.
  - intros created db'. rewrite database_create_unfold, Hget.
    destruct (details !! "user") as [user|]; [|done].
    destruct (is_known_user user db); [done|].
    destruct (_get_auth fresh (Some token)) as [auth|] eqn:E; [|done].
    destruct (Hauth auth eq_refl) as [-> Cu].
    destruct (username_free _ _ _); [|done]. intros [= <- <-]. simpl.
    split; [done|]. split; [done|]. by exists (username auth), (password auth).
  - intros user updated db'. rewrite database_update_unfold, Hget.
    destruct (is_known_user user db); [|done].
    destruct (_get_auth fresh (Some token)) as [auth|] eqn:E; [|done].
    destruct (Hauth auth eq_refl) as [-> Cu].
    destruct (username_free _ _ _); [|done]. intros [= <- <-].
    split; [done|]. by exists (username auth), (password auth).
Qed.

End DataBaseMore.

Section Listings.
Context {DB Date : Type} {listing : Listing DB Date}.
Import DataBaseListing.

(** X15. [get_all] of the database-backed collection never raises and
    never writes; it returns one row for each record the model lists, in
    the order of the model, and a row holds the user and the username of
    its record and nothing else: no token and no password. *)
Theorem database_get_all_hides_tokens start_date end_date (db : DB) :
  exists rows,
    get_all start_date end_date db = (Ok rows, db)
    /\ length rows = length (get_all_credentials start_date end_date db)
    /\ forall i credentials,
         get_all_credentials start_date end_date db !! i = Some credentials ->
         exists row,
           rows !! i = Some row
           /\ row !! "user" = Some (cred_user credentials)
           /\ row !! "username" = Some (VStr (username (cred_auth credentials)))
           /\ forall key, key <> "user" -> key <> "username" -> row !! key = None.
Proof.
  eexists. split; [reflexivity|]. split; [apply length_fmap|].
  intros i credentials Hi. exists (listed credentials).
  rewrite list_lookup_fmap, Hi. split; [done|]. unfold listed.
  split; [apply lookup_insert_eq|]. split.
  - by rewrite lookup_insert_ne, lookup_singleton_eq.
  - intros key Huser Hname.
    by rewrite lookup_insert_ne, lookup_singleton_ne.
Qed.

End Listings.

(** ** Concurrent calls: progress and uniqueness *)

Section Liveness.
Context {hash : HashFunction}.
Import Scheduler SchedulerFacts Progress.

(** X16. The lock never blocks the collection for good: however the calls
    were interleaved so far, either every call is done or some call can be
    resumed; and while the lock is taken, the call that holds it can. *)
Theorem locking_never_deadlocks calls items0 schedule st :
  run schedule (initial calls items0) = Some st ->
  (locked st = true ->
   exists i rest, tasks st !! i = Some (Running true rest) /\ is_Some (step i st))
  /\ (finished st \/ exists i, is_Some (step i st)).
Proof.
  intros Hrun.
  pose proof (run_disciplined calls _ _ _ (initial_disciplined calls items0) Hrun)
    as (_ & _ & _ & Hlock).
  assert (forall i holds rest, tasks st !! i = Some (Running holds rest) ->
            is_Some (step i st)) as Hrunning.
  { intros i holds rest Hi. unfold step. rewrite Hi.
    destruct rest as [r|A code rest]; [done|].
    by destruct (code (items st)) as [[a|e] items']. }
  assert (locked st = true ->
          exists i rest, tasks st !! i = Some (Running true rest)
                         /\ is_Some (step i st)) as Hholder.
  { intros (i & t & Hi & Hheld)%Hlock.
    destruct t as [|[] rest|]; try discriminate. eauto. }
  split; [done|].
  destruct (locked st) eqn:Hlocked.
  { right. destruct (Hholder eq_refl) as (i & _ & _ & Hstep). eauto. }
  assert (forall l : list task,
            (forall i t, l !! i = Some t -> exists outcome, t = Done outcome)
            \/ exists i t, l !! i = Some t /\ forall outcome, t <> Done outcome)
    as Hcases.
  { induction l as [|t l [IH|(i & t' & Hi & Ht')]].
    - left. by intros i t.
    - destruct t as [rest|holds rest|outcome].
      + right. by exists 0%nat, (Waiting rest).
      + right. by exists 0%nat, (Running holds rest).
      + left. intros [|i] t; simpl; [intros [= <-]; eauto|apply IH].
    - right. by exists (S i), t'. }
  destruct (Hcases (tasks st)) as [Hdone|(i & t & Hi & Ht)]; [by left|].
  right. exists i. destruct t as [rest|holds rest|outcome].
  - unfold step. by rewrite Hi, Hlocked.
  - eauto.
  - by destruct (Ht outcome).
Qed.

(** X18. A call of a method without the decorator, [get_all] or
    [api_credentials_match], never waits: whatever the other calls do and
    whoever holds the lock, it is done or it can be resumed, and its
    resumption writes nothing and leaves the lock as it is. *)
Theorem undecorated_calls_never_wait calls items0 schedule st i c :
  run schedule (initial calls items0) = Some st ->
  calls !! i = Some c -> locking c = false ->
  (exists outcome, tasks st !! i = Some (Done outcome))
  \/ exists st', step i st = Some st'
                 /\ items st' = items st /\ locked st' = locked st.
Proof.
  intros Hrun Hc Hl.
  pose proof (run_disciplined calls _ _ _ (initial_disciplined calls items0) Hrun)
    as (Hlen & Hof & _ & _).
  destruct (run_serialized calls items0 _ _ _ _
              (initial_disciplined calls items0)
              (initial_serialized calls items0) Hrun) as [order Hser].
  destruct (lookup_lt_is_Some_2 (tasks st) i) as [t Hi].
  { rewrite Hlen. by apply (lookup_lt_Some _ _ _ Hc). }
  specialize (Hof _ _ _ Hc Hi).
  destruct t as [rest|holds rest|outcome]; simpl in Hof; [congruence| |by eauto].
  right. rewrite Hl in Hof. subst holds.
  pose proof (ser_reader _ _ _ _ Hser _ _ Hi) as Hreader.
  unfold step. rewrite Hi. destruct rest as [r|A code rest]; [by eexists|].
  destruct Hreader as [Hpure _]. specialize (Hpure (items st)).
  destruct (code (items st)) as [[a|e] items']; simpl in Hpure; subst items';
    by eexists.
Qed.

End Liveness.

Module SteadyFacts.
Section Facts.
Context {hash : HashFunction}.
Import Scheduler SchedulerFacts Progress.

Lemma body_safe c items :
  call_ok c -> MemoryState.consistent items -> safe (body c) items.
Proof.
  intros Hok Hcons. destruct c; cbn [body safe call_ok] in *.
  - pose proof (MemoryFacts.create_consistent fresh details items Hok Hcons) as Hc.
    unfold MemoryCredentialsCollection.create, py_bind in Hc.
    assert ((MemoryCredentialsCollection.create_details fresh details items).2 = items)
      as Hsame.
    { unfold MemoryCredentialsCollection.create_details, py_bind, py_lift.
      destruct (_get_auth _ _); [|done].
      destruct (details !! "user"); [|done]. unfold py_ret. simpl.
      by destruct (MemoryCredentialsCollection.check_entries _ _ _). }
    destruct (MemoryCredentialsCollection.create_details fresh details items)
      as [[d|e] items1]; simpl in *; subst items1; [|done].
    split; [done|]. split; [done|].
    by destruct (SampleResourceCollection.create "user" d items) as [[?|?] ?].
  - split; [done|]. by simpl.
  - pose proof (MemoryFacts.update_consistent fresh user details items Hok Hcons) as Hc.
    unfold MemoryCredentialsCollection.update, py_bind in Hc.
    assert ((MemoryCredentialsCollection.update_details fresh user details items).2 = items)
      as Hsame.
    { unfold MemoryCredentialsCollection.update_details, py_bind, py_lift.
      destruct (_get_auth _ _); [|done]. unfold py_ret. simpl.
      by destruct (MemoryCredentialsCollection.check_entries _ _ _). }
    destruct (MemoryCredentialsCollection.update_details fresh user details items)
      as [[d|e] items1]; simpl in *; subst items1; [|done].
    split; [done|]. split; [done|].
    by destruct (SampleResourceCollection.update user d items) as [[?|?] ?].
  - change (SampleResourceCollection.delete res_id)
      with (MemoryCredentialsCollection.delete res_id).
    rewrite MemoryFacts.memory_delete_unfold.
    destruct (items !! res_id); simpl; [|done].
    split; [|done]. by apply MemoryFacts.delete_consistent.
  - change (SampleResourceCollection.get res_id)
      with (MemoryCredentialsCollection.get res_id).
    rewrite MemoryFacts.memory_get_unfold. by destruct (items !! res_id).
  - unfold MemoryCredentialsCollection.credentials_match, py_bind, py_read, py_lift.
    simpl. by destruct (MemoryCredentialsCollection.tokens_of _).
  - done.
Qed.

Lemma step_steady calls items0 st i st' order :
  Forall call_ok calls -> disciplined calls st ->
  serialized calls items0 st order -> steady st ->
  step i st = Some st' -> steady st'.
Proof.
  intros Hok (Hlen & Hof & Hone & Hlock) Hser [Hcons Hsafe]. unfold step.
  destruct (tasks st !! i) as [t|] eqn:Hi; [|done].
  assert (forall t' items' lock',
            MemoryState.consistent items' ->
            (forall rest', t' = Running true rest' -> safe rest' items') ->
            (items' = items st \/ holding t = true) ->
            steady (mkCollection items' lock' (<[i := t']> (tasks st)))) as Hnext.
  { intros t' items' lock' Hcons' Ht' Hitems.
    destruct (replaced _ _ _ t' Hi) as (Hlook & _ & _).
    split; [done|]. simpl. intros h rest [[-> E]|[Hne Hh]]%Hlook; [by apply Ht'|].
    destruct Hitems as [->|Hheld]; [by apply (Hsafe h)|].
    by destruct Hne; apply (Hone h i _ _ Hh Hi). }
  destruct t as [rest|holds [r|A code rest]|outcome]; [| | |done].
  - destruct (locked st); [done|]. intros [= <-].
    apply Hnext; [done| |by left]. intros rest' [= <-].
    destruct (lookup_lt_is_Some_2 calls i) as [c Hc].
    { rewrite <- Hlen. by apply (lookup_lt_Some _ _ _ Hi). }
    rewrite (ser_waiting _ _ _ _ Hser _ _ _ Hc Hi).
    apply body_safe; [|done]. by apply (Forall_lookup_1 _ _ _ _ Hok Hc).
  - intros [= <-]. apply Hnext; [done|done|by left].
  - destruct holds.
    + destruct (Hsafe _ _ Hi) as [Hcons' Hrest].
      destruct (code (items st)) as [[a|e] items']; intros [= <-]; simpl in *.
      * apply Hnext; [done| |by right]. by intros rest' [= <-].
      * apply Hnext; [done|done|by right].
    + destruct (ser_reader _ _ _ _ Hser _ _ Hi) as [Hpure _].
      specialize (Hpure (items st)).
      destruct (code (items st)) as [[a|e] items']; simpl in Hpure; subst items';
        intros [= <-]; apply Hnext; (done || by left).
Qed.

Lemma run_steady calls items0 schedule st st' order :
  Forall call_ok calls -> disciplined calls st ->
  serialized calls items0 st order -> steady st ->
  run schedule st = Some st' -> steady st'.
Proof.
  intros Hok. revert st order.
  induction schedule as [|i schedule IH]; simpl; intros st order Hinv Hser Hsteady.
  - by intros [= <-].
  - destruct (step i st) as [st1|] eqn:Hstep; [|done].
    destruct (step_serialized _ _ _ _ _ _ Hinv Hser Hstep) as [order1 Hser1].
    apply (IH st1 order1); [by eapply step_disciplined|done|].
    by eapply step_steady.
Qed.

Lemma initial_steady calls items0 :
  MemoryState.consistent items0 -> steady (initial calls items0).
Proof.
  intros Hcons. split; [done|]. simpl. intros h rest.
  rewrite list_lookup_fmap. destruct (calls !! h) as [c|]; [|done].
  simpl. unfold start. destruct (locking c); discriminate.
Qed.

End Facts.
End SteadyFacts.

Section Concurrency.
Context {hash : HashFunction}.
Import Scheduler SchedulerFacts Progress SteadyFacts.

(** X19. Unique usernames survive concurrency: whatever calls are made at
    once on a collection with unique usernames, and however the event loop
    interleaves them, at every moment, also while a call holds the lock and
    waits at an [await], no two records with distinct user keys share a
    username and every stored token reads back as credentials. So a
    [get_all], which takes no lock, never sees two users with one
    username. *)
Theorem concurrent_usernames_stay_unique calls items0 schedule st :
  Forall call_ok calls -> MemoryState.consistent items0 ->
  run schedule (initial calls items0) = Some st ->
  MemoryState.consistent (items st).
Proof.
  intros Hok Hcons Hrun.
  by destruct (run_steady calls items0 schedule _ st [] Hok
                 (initial_disciplined calls items0)
                 (initial_serialized calls items0)
                 (initial_steady calls items0 Hcons) Hrun).
Qed.

End Concurrency.

(** ** The collections at work *)

(** The theorems above hold for every hash function; here they are applied,
    and the collections run, with SHA-256. *)
Section Runs.
#[local] Existing Instance sha256.
Import Scenario.

(** Test vectors of FIPS 180-4, and the hash of the scenario. *)
Example sha256_abc :
  sha256 "abc" = "ba7816bf8f01cfea414140de5dae2223b00361a396177a9cb410ff61f20015ad".
Proof. vm_compute. reflexivity. Qed.

Example sha256_two_blocks :
  sha256 "abcdbcdecdefdefgefghfghighijhijkijkljklmklmnlmnomnopnopq"
  = "248d6a61d20638b8e5c026930c3e6039a33ce45964ff2167f6ecedd419db06c1".
Proof. vm_compute. reflexivity. Qed.

Example sha256_secret :
  sha256 "secret" = "2bb80d537b1da3e38bd30361aa855686bde0eacd7162fef6a25fe97bf527a25b".
Proof. vm_compute. reflexivity. Qed.

Lemma prep_token_twice_sha256 :
  _prep_token (_prep_token (Some ("alice_login" +:+ ":" +:+ "secret")))
    = Some ("alice_login" +:+ ":" +:+ hash_token256 (hash_token256 "secret"))
  /\ (_prep_token (_prep_token (Some ("alice_login" +:+ ":" +:+ "secret")))
        = _prep_token (Some ("alice_login" +:+ ":" +:+ "secret"))
      <-> hash_token256 (hash_token256 "secret") = hash_token256 "secret").
Proof.
  apply (prep_token_twice "alice_login" "secret").
  all: vm_compute; congruence.
Defined.

(** C3, as stated, fails: the second round hashes the stored form again. *)
Lemma prep_token_not_idempotent :
  _prep_token (Some "alice_login:secret")
    = Some "alice_login:2bb80d537b1da3e38bd30361aa855686bde0eacd7162fef6a25fe97bf527a25b"
  /\ _prep_token (_prep_token (Some "alice_login:secret"))
     <> _prep_token (Some "alice_login:secret").
Proof. split; [vm_compute; reflexivity|vm_compute; discriminate]. Qed.

Lemma alice_only_items :
  alice_only
  = {[ alice := {[ "user" := alice;
                   "token" := VStr ("alice_login:" +:+ sha256 "secret") ]} ]}.
Proof. vm_compute. reflexivity. Qed.


(** C1, as stated, fails in the database-backed collection: Bob, who has a
    record, asks to be created with the username in the stored token of
    Alice, and the error is [ResourceAlreadyExists], not
    [InvalidResourceDetails]. *)
Lemma database_create_known_user_first :
  TableModel.by_username "alice_login" two_users
    = Some (mkCredentials alice (mkAuth "alice_login" (sha256 "secret")))
  /\ _get_auth generated (dict_get bob_as_alice "token")
     = Ok (mkAuth "alice_login" "other")
  /\ DataBaseCredentialsCollection.create generated bob_as_alice two_users
     = (Raise (ResourceAlreadyExists bob), two_users).
Proof. split; [|split]; vm_compute; reflexivity. Qed.





Lemma missing_token_generates_carol :
  MemoryCredentialsCollection.create generated carol_details alice_only
  = (Ok (<["token" := VStr (auth_str generated)]> carol_details),
     <[VStr "carol" := <["token" := VStr (auth_str generated)]> carol_details]>
       alice_only)
  /\ DataBaseCredentialsCollection.create generated carol_details two_users
     = (Ok (VStr "carol",
            {[ "user" := VStr "carol"; "token" := VStr (auth_str generated) ]}),
        add_credentials (VStr "carol") (username generated) (password generated)
          two_users).
Proof.
  assert (token_missing carol_details) as Hmissing by (left; compute_done).
  assert (carol_details !! "user" = Some (VStr "carol")) as Huser by compute_done.
  assert (alice_only !! VStr "carol" = None) as Habsent by compute_done.
  assert (MemoryState.well_formed alice_only) as Hwf.
  { apply MemoryFacts.run_consistent; [|apply MemoryFacts.empty_consistent].
    repeat constructor; discriminate. }
  assert (forall other held, MemoryState.record_auth alice_only other held ->
            username held = username generated -> other = VStr "carol") as Hfree.
  { intros other held (details & Hlook & Hauth) Hname.
    rewrite alice_only_items in Hlook.
    apply lookup_singleton_Some in Hlook as [_ <-].
    vm_compute in Hauth. injection Hauth as <-. discriminate Hname. }
  assert (is_known_user (VStr "carol") two_users = false) as Hknown by compute_done.
  assert (TableModel.by_username (username generated) two_users = None) as Hnone
    by compute_done.
  assert (forall held,
            get_credentials_username (username generated) two_users = Some held ->
            cred_user held = VStr "carol") as Hheld.
  { intros held Hsome.
    change (TableModel.by_username (username generated) two_users = Some held)
      in Hsome.
    congruence. }
  pose proof (missing_token_generates generated carol_details Hmissing)
    as (Hmemory & _ & Htable & _).
  split.
  - exact (proj2 (proj2 (Hmemory alice_only Hwf)) (VStr "carol") Huser Habsent Hfree).
  - exact (proj2 (proj2 (Htable _ _ two_users)) (VStr "carol") Huser Hknown Hheld).
Defined.

(** A token of three parts is none of the tokens [_prep_token] hashes:
    the in-memory collection keeps it as it came. *)
Example colon_password_kept :
  _prep_token (Some "alice_login:pa:ss") = Some "alice_login:pa:ss"
  /\ MemoryState.run [Create generated colon_password] ∅
     = {[ alice := colon_password ]}.
Proof. split; vm_compute; reflexivity. Qed.

(** Carol sends no token: the generated pair is stored and returned. *)
Example carol_gets_generated :
  (MemoryCredentialsCollection.create generated carol_details alice_only).1
    = Ok {[ "user" := VStr "carol"; "token" := VStr "kq3vX9aTz:Wm5cPq0L" ]}
  /\ (DataBaseCredentialsCollection.create generated carol_details two_users).1
     = Ok (VStr "carol",
           {[ "user" := VStr "carol"; "token" := VStr "kq3vX9aTz:Wm5cPq0L" ]}).
Proof. split; vm_compute; reflexivity. Qed.

(** C7, as stated, fails in the in-memory collection: Dave has no record
    and asks for the username of Alice; the error is
    [InvalidResourceDetails], not [ResourceNotFound]. *)
Lemma memory_update_absent_user_taken :
  alice_only !! VStr "dave" = None
  /\ MemoryCredentialsCollection.update generated (VStr "dave") bob_as_alice alice_only
     = (Raise taken, alice_only).
Proof. split; vm_compute; reflexivity. Qed.

(** The scenario of the specification: Alice is created with
    [alice_login:secret]; Bob cannot take [alice_login]; the password of
    Alice matches and a wrong one does not. *)
Example scenario_memory :
  MemoryCredentialsCollection.get alice alice_only
    = (Ok {[ "user" := alice;
             "token" := VStr ("alice_login:" +:+ sha256 "secret") ]}, alice_only)
  /\ MemoryCredentialsCollection.create generated bob_as_alice alice_only
     = (Raise taken, alice_only)
  /\ MemoryCredentialsCollection.credentials_match "alice_login" "secret" alice_only
     = (Ok true, alice_only)
  /\ MemoryCredentialsCollection.credentials_match "alice_login" "wrong" alice_only
     = (Ok false, alice_only).
Proof. split; [|split; [|split]]; vm_compute; reflexivity. Qed.

Example scenario_database :
  DataBaseCredentialsCollection.get alice two_users
    = (Ok {[ "user" := alice;
             "token" := VStr ("alice_login:" +:+ sha256 "secret") ]}, two_users)
  /\ DataBaseCredentialsCollection.update generated bob bob_as_alice two_users
     = (Raise taken, two_users)
  /\ DataBaseCredentialsCollection.credentials_match "alice_login" "secret" two_users
     = (Ok true, two_users)
  /\ DataBaseCredentialsCollection.credentials_match "alice_login" "wrong" two_users
     = (Ok false, two_users).
Proof. split; [|split; [|split]]; vm_compute; reflexivity. Qed.

End Runs.

Section LockingRuns.
#[local] Existing Instance sha256.
Import Scenario Scheduler.

(** C8, as stated, fails for [api_credentials_match]: while the [create]
    of Alice holds the lock and waits at its [await], the call runs from
    its entry to its exit without the lock. *)
Lemma api_credentials_match_takes_no_lock :
  (fun st => (locked st, holding <$> tasks st !! 0%nat))
    <$> run [0; 0]%nat (initial create_and_api ∅) = Some (true, Some true)
  /\ (fun st => (locked st, holding <$> tasks st !! 0%nat, tasks st !! 1%nat))
       <$> run [0; 0; 1; 1]%nat (initial create_and_api ∅)
     = Some (true, Some true, Some (Done (Ok (RBool true)))).
Proof. split; vm_compute; reflexivity. Qed.

(** A second [create] cannot start while the first holds the lock. *)
Example create_waits_for_lock :
  run [0; 1]%nat
      (initial [CallCreate generated alice_details;
                CallCreate generated bob_as_alice] ∅)
  = None.
Proof. vm_compute. reflexivity. Qed.

Lemma locking_calls_serialized_run :
  is_Some (run [0; 0; 1; 1; 0; 0]%nat (initial create_and_api ∅))
  /\ match run [0; 0; 1; 1; 0; 0]%nat (initial create_and_api ∅) with
     | Some st =>
         exists order,
           NoDup order
           /\ (forall j, j ∈ order <->
                 exists c r, create_and_api !! j = Some c /\ locking c = true
                             /\ tasks st !! j = Some (Done r))
           /\ (forall j r, (j, r) ∈ (serial create_and_api order ∅).1 ->
                 tasks st !! j = Some (Done r))
           /\ (locked st = false -> items st = (serial create_and_api order ∅).2)
     | None => True
     end.
Proof.
  split.
  - vm_compute. eexists. reflexivity.
  - destruct (run _ _) as [st|] eqn:Hrun; [|exact I].
    exact (proj2 (proj2 (proj2 (proj2
             (locking_calls_serialized create_and_api ∅ _ st Hrun))))).
Defined.
End LockingRuns.

(** ** The collections at work, once more *)

Section MoreRuns.
#[local] Existing Instance sha256.
Import Scenario Changes PyStr.

Lemma alice_only_consistent : MemoryState.consistent alice_only.
Proof.
  apply MemoryFacts.run_consistent; [|apply MemoryFacts.empty_consistent].
  repeat constructor; discriminate.
Qed.

Lemma alice_only_record :
  MemoryState.record_auth alice_only alice (mkAuth "alice_login" (sha256 "secret")).
Proof.
  exists {[ "user" := alice; "token" := VStr ("alice_login:" +:+ sha256 "secret") ]}.
  split; compute_done.
Qed.

Lemma alice_only_holder other held :
  MemoryState.record_auth alice_only other held -> other = alice.
Proof.
  intros (details & Hlook & _). revert Hlook.
  assert (alice_only
          = {[ alice := {[ "user" := alice;
                           "token" := VStr ("alice_login:" +:+ sha256 "secret") ]} ]})
    as -> by compute_done.
  by intros [? _]%lookup_singleton_Some.
Qed.

(** Alice has a record and is created again: the token is read, no other
    user holds its username, and the user is found to exist. *)
Lemma memory_create_checks_alice :
  MemoryCredentialsCollection.create generated alice_details alice_only
  = (Raise (ResourceAlreadyExists alice), alice_only).
Proof.
  assert (_get_auth generated (_prep_token (dict_get alice_details "token"))
          = Ok (mkAuth "alice_login" (sha256 "secret"))) as Hauth by compute_done.
  assert (alice_details !! "user" = Some alice) as Huser by compute_done.
  assert (is_Some (alice_only !! alice)) as Hsome by compute_done.
  exact (proj1 (proj2 (proj2 (proj2 (memory_create_checks generated alice_details
                                       alice_only (proj1 alice_only_consistent))
                                    _ Hauth) alice Huser)
                      (fun other held Hheld _ => alice_only_holder other held Hheld))
               Hsome).
Defined.

(** After Alice was created her password is checked without an error. *)
Lemma memory_errors_classified_alice :
  exists matched,
    MemoryCredentialsCollection.credentials_match "alice_login" "secret" alice_only
    = (Ok matched, alice_only).
Proof.
  assert (Forall operation_ok [Create generated alice_details]) as Hops
    by (repeat constructor; discriminate).
  exact (proj2 (proj2 (proj2 (proj2
           (memory_errors_classified [Create generated alice_details] Hops))))
           "alice_login" "secret").
Defined.

(** Alice is created with [alice_login:secret]: her password matches, and
    another one does not. *)
Lemma create_then_credentials_match_alice :
  MemoryCredentialsCollection.credentials_match "alice_login" "secret" alice_only
  = (Ok (bool_decide (hash_token256 "secret" = hash_token256 "secret")), alice_only)
  /\ MemoryCredentialsCollection.credentials_match "alice_login" "wrong" alice_only
     = (Ok (bool_decide (hash_token256 "wrong" = hash_token256 "secret")), alice_only)
  /\ bool_decide (hash_token256 "wrong" = hash_token256 "secret") = false.
Proof.
  assert (MemoryCredentialsCollection.create generated alice_details ∅
          = (Ok (<["token" := VStr ("alice_login:" +:+ sha256 "secret")]> alice_details),
             alice_only)) as Hcreate by compute_done.
  assert (alice_details !! "token" = Some (VStr ("alice_login" +:+ ":" +:+ "secret")))
    as Htoken by compute_done.
  pose proof (create_then_credentials_match generated alice_details ∅ _ alice_only
                "alice_login" "secret" (proj1 MemoryFacts.empty_consistent)
                ltac:(discriminate) ltac:(discriminate) eq_refl eq_refl
                Htoken Hcreate) as Hmatch.
  split; [apply Hmatch|]. split; [apply Hmatch|]. compute_done.
Defined.

(** Alice changes her username: the new one matches her password, and the
    old one matches nothing. *)
Lemma update_then_credentials_match_alice :
  MemoryCredentialsCollection.credentials_match "alice_new" "secret" renamed
  = (Ok (bool_decide (hash_token256 "secret" = hash_token256 "secret")), renamed)
  /\ MemoryCredentialsCollection.credentials_match "alice_login" "secret" renamed
     = (Ok false, renamed).
Proof.
  assert (MemoryCredentialsCollection.update generated alice alice_renamed alice_only
          = (Ok (<["token" := VStr ("alice_new:" +:+ sha256 "secret")]> alice_renamed),
             renamed)) as Hupdate by compute_done.
  assert (alice_renamed !! "token" = Some (VStr ("alice_new" +:+ ":" +:+ "secret")))
    as Htoken by compute_done.
  pose proof (update_then_credentials_match generated alice alice_renamed alice_only
                _ renamed _ "alice_new" "secret"
                alice_only_consistent alice_only_record
                ltac:(discriminate) ltac:(discriminate) eq_refl eq_refl
                Htoken Hupdate) as [Hnew Hold].
  split; [apply Hnew|]. apply Hold. discriminate.
Defined.


(** Alice is deleted: her password matches no more. *)
Lemma delete_then_no_match_alice :
  MemoryCredentialsCollection.delete alice alice_only
  = (Ok tt, base.delete alice alice_only)
  /\ MemoryCredentialsCollection.credentials_match "alice_login" "secret"
       (base.delete alice alice_only)
     = (Ok false, base.delete alice alice_only).
Proof.
  pose proof (delete_then_no_match alice alice_only _
                alice_only_consistent alice_only_record) as [Hdelete Hmatch].
  split; [exact Hdelete|exact (Hmatch "secret")].
Defined.

(** Bob cannot take the username of Alice while she has a record, and can
    once she is deleted. *)
Lemma delete_frees_username_alice :
  MemoryCredentialsCollection.create generated bob_as_alice alice_only
  = (Raise taken, alice_only)
  /\ exists created items',
       MemoryCredentialsCollection.create generated bob_as_alice
         (MemoryCredentialsCollection.delete alice alice_only).2
       = (Ok created, items')
       /\ MemoryState.record_auth items' bob
            (mkAuth "alice_login" (hash_token256 "other")).
Proof.
  assert (alice_only !! bob = None) as Habsent by compute_done.
  assert (bob_as_alice !! "user" = Some bob) as Huser by compute_done.
  assert (bob_as_alice !! "token" = Some (VStr ("alice_login" +:+ ":" +:+ "other")))
    as Htoken by compute_done.
  exact (delete_frees_username generated alice bob bob_as_alice alice_only
           (mkAuth "alice_login" (sha256 "secret")) "other"
           alice_only_consistent alice_only_record
           ltac:(discriminate) Habsent ltac:(discriminate) eq_refl
           (proj1 (Sha256Facts.sha256_component "other")) Huser Htoken).
Defined.

(** Alice is created in the table: the token comes back as it was sent,
    and the table was handed the password, not its hash. *)
Lemma database_returns_submitted_token_alice :
  exists u p, "alice_login:secret" = u +:+ ":" +:+ p /\ contains colon u = false
              /\ TableModel.store alice "alice_login" "secret" TableModel.empty
                 = add_credentials alice u p TableModel.empty.
Proof.
  assert (dict_get alice_details "token" = Some "alice_login:secret") as Hget
    by compute_done.
  assert (DataBaseCredentialsCollection.create generated alice_details TableModel.empty
          = (Ok (alice, {[ "user" := alice; "token" := VStr "alice_login:secret" ]}),
             TableModel.store alice "alice_login" "secret" TableModel.empty))
    as Hcreate by compute_done.
  exact (proj2 (proj2
           (proj1 (database_returns_submitted_token generated alice_details
                     "alice_login:secret" TableModel.empty Hget ltac:(discriminate))
                  _ _ Hcreate))).
Defined.

End MoreRuns.

Section MoreLockingRuns.
#[local] Existing Instance sha256.
Import Scenario Changes Scheduler Progress.

Lemma interleaving_runs :
  is_Some (run interleaving (initial creates_and_listing ∅))
  /\ is_Some (run [0; 0]%nat (initial creates_and_listing ∅)).
Proof. split; compute_done. Qed.

(** While the [create] of Alice holds the lock, it can be resumed. *)
Lemma locking_never_deadlocks_run :
  match run [0; 0]%nat (initial creates_and_listing ∅) with
  | Some st =>
      (locked st = true ->
       exists i rest, tasks st !! i = Some (Running true rest) /\ is_Some (step i st))
      /\ (finished st \/ exists i, is_Some (step i st))
  | None => False
  end.
Proof.
  destruct (proj2 interleaving_runs) as [st Hrun]. rewrite Hrun.
  exact (locking_never_deadlocks creates_and_listing ∅ _ st Hrun).
Defined.

(** While the [create] of Alice holds the lock, the listing can be
    resumed, and writes nothing. *)
Lemma undecorated_calls_never_wait_run :
  match run [0; 0]%nat (initial creates_and_listing ∅) with
  | Some st =>
      (exists outcome, tasks st !! 1%nat = Some (Done outcome))
      \/ exists st', step 1 st = Some st'
                     /\ items st' = items st /\ locked st' = locked st
  | None => False
  end.
Proof.
  destruct (proj2 interleaving_runs) as [st Hrun]. rewrite Hrun.
  exact (undecorated_calls_never_wait creates_and_listing ∅ _ st 1%nat CallGetAll
           Hrun eq_refl eq_refl).
Defined.

Lemma concurrent_usernames_stay_unique_run :
  match run interleaving (initial creates_and_listing ∅) with
  | Some st => MemoryState.consistent (items st)
  | None => False
  end.
Proof.
  destruct (proj1 interleaving_runs) as [st Hrun]. rewrite Hrun.
  assert (Forall call_ok creates_and_listing) as Hok
    by (repeat constructor; discriminate).
  exact (concurrent_usernames_stay_unique creates_and_listing ∅ _ st Hok
           MemoryFacts.empty_consistent Hrun).
Defined.

End MoreLockingRuns.
